(** * ZhiShu orchestration core: service client and workflow engine

    A shallow embedding of
      - [src/project/src/MCP/client_framework.py]  (module [Client]),
      - [src/project/src/workflow/engine.py]       (module [Engine]) and
      - two endpoints of [src/project/src/api/workflow_api.py] (module [Api]),
    with the properties of the specification stated over it.

    Conventions.
      - Decoded JSON values (and Python's [None]) are the type [json];
        [JNull] is [None].
      - Clock readings ([time.time()]) are integers in a fixed unit.
      - Code inside [try] is a value of [exc A]: it returns or raises an
        instance of [Exception].  Task cancellation and the other
        exceptions outside [Exception] are not modelled.
      - The timestamp fields of the engine's records are left out.
      - The network is scripted: every request the code issues is answered
        from an [Env] record, and the requests issued are returned as a log. *)

From stdpp Require Import gmap strings list pretty.

Set Warnings "-register-all".

Local Open Scope string_scope.
Local Open Scope Z_scope.

(** ** Decoded JSON values and Python exceptions *)

Inductive json :=
| JNull
| JBool (b : bool)
| JNum (n : Z)
| JStr (s : string)
| JArr (l : list json)
| JObj (kvs : list (string * json)).

(** The exceptions the [except] clauses of the two files catch: instances
    of [Exception], among which the client singles out
    [asyncio.TimeoutError].  Exceptions outside [Exception]
    ([asyncio.CancelledError] when the running task is cancelled,
    [KeyboardInterrupt], [SystemExit]) pass through every
    [except Exception] clause.  They are not modelled: what is stated below
    is about calls and runs that are not interrupted in this way. *)
Inductive exn :=
| TimeoutError (msg : string)     (* asyncio.TimeoutError *)
| OtherError (msg : string).      (* any other subclass of Exception *)

Definition str_exn (e : exn) : string :=
  match e with TimeoutError m => m | OtherError m => m end.

Inductive exc (A : Type) :=
| Ok (a : A)
| Raise (e : exn).
Arguments Ok {A} a.
Arguments Raise {A} e.

Definition exc_bind {A B} (m : exc A) (k : A → exc B) : exc B :=
  match m with Ok a => k a | Raise e => Raise e end.

Notation "'let?' x ':=' m 'in' k" := (exc_bind m (fun x => k))
  (at level 10, x name, m at level 100, k at level 200).

Fixpoint assoc (k : string) (kvs : list (string * json)) : option json :=
  match kvs with
  | [] => None
  | (k', v) :: rest => if String.eqb k k' then Some v else assoc k rest
  end.

Definition type_name (j : json) : string :=
  match j with
  | JNull => "NoneType" | JBool _ => "bool" | JNum _ => "int"
  | JStr _ => "str" | JArr _ => "list" | JObj _ => "dict"
  end.

(** [d.get(k, dflt)]: only a dict has [get]. *)
Definition dict_get_default (k : string) (dflt : json) (d : json) : exc json :=
  match d with
  | JObj kvs => Ok (default dflt (assoc k kvs))
  | _ => Raise (OtherError ("'" +:+ type_name d +:+ "' object has no attribute 'get'"))
  end.

Definition dict_get (k : string) (d : json) : exc json :=
  dict_get_default k JNull d.

(** [j == s] for a string literal [s]. *)
Definition is_str (j : json) (s : string) : bool :=
  match j with JStr s' => String.eqb s' s | _ => false end.

(** Python truthiness. *)
Definition truthy (j : json) : bool :=
  match j with
  | JNull => false
  | JBool b => b
  | JNum n => negb (n =? 0)
  | JStr s => negb (String.eqb s "")
  | JArr l => match l with [] => false | _ => true end
  | JObj l => match l with [] => false | _ => true end
  end.

(** ** HTTP *)

Record Response := {
  http_status : Z;
  json_body : exc json;        (* await response.json() *)
  text_body : exc string       (* await response.text() *)
}.

Inductive Request :=
| POST (url : string) (body : json) (timeout : Z)
| GET (url : string) (timeout : option Z).

Definition is_POST (r : Request) : bool :=
  match r with POST _ _ _ => true | GET _ _ => false end.

(** * client_framework.py *)
Module Client.

Inductive ServiceStatus := HEALTHY | DEGRADED | UNHEALTHY | UNKNOWN.

Definition ServiceStatus_eqb (a b : ServiceStatus) : bool :=
  match a, b with
  | HEALTHY, HEALTHY | DEGRADED, DEGRADED
  | UNHEALTHY, UNHEALTHY | UNKNOWN, UNKNOWN => true
  | _, _ => false
  end.

Record ServiceEndpoint := {
  name : string;
  url : string;
  health_check_url : string;
  status : ServiceStatus;
  last_check : Z;
  response_time : Z;
  error_count : Z;
  max_errors : Z;
  timeout : Z
}.

(** [ServiceEndpoint(name, url, health_check_url)] with the dataclass defaults. *)
Definition new_endpoint (n u h : string) : ServiceEndpoint :=
  {| name := n; url := u; health_check_url := h; status := UNKNOWN;
     last_check := 0; response_time := 0; error_count := 0;
     max_errors := 3; timeout := 30 |}.

Definition set_status (v : ServiceStatus) (s : ServiceEndpoint) :=
  {| name := name s; url := url s; health_check_url := health_check_url s;
     status := v; last_check := last_check s; response_time := response_time s;
     error_count := error_count s; max_errors := max_errors s; timeout := timeout s |}.
Definition set_last_check (v : Z) (s : ServiceEndpoint) :=
  {| name := name s; url := url s; health_check_url := health_check_url s;
     status := status s; last_check := v; response_time := response_time s;
     error_count := error_count s; max_errors := max_errors s; timeout := timeout s |}.
Definition set_response_time (v : Z) (s : ServiceEndpoint) :=
  {| name := name s; url := url s; health_check_url := health_check_url s;
     status := status s; last_check := last_check s; response_time := v;
     error_count := error_count s; max_errors := max_errors s; timeout := timeout s |}.
Definition set_error_count (v : Z) (s : ServiceEndpoint) :=
  {| name := name s; url := url s; health_check_url := health_check_url s;
     status := status s; last_check := last_check s; response_time := response_time s;
     error_count := v; max_errors := max_errors s; timeout := timeout s |}.

Record MCPCallResult := {
  success : bool;
  data : json;
  error : json;
  execution_id : json;
  service_name : option string;
  tool_name : option string;
  duration : Z
}.

(** [MCPCallResult(success=False, error=msg)] *)
Definition failure (msg : json) : MCPCallResult :=
  {| success := false; data := JNull; error := msg; execution_id := JNull;
     service_name := None; tool_name := None; duration := 0 |}.

Definition with_execution_id (x : json) (r : MCPCallResult) : MCPCallResult :=
  {| success := success r; data := data r; error := error r; execution_id := x;
     service_name := service_name r; tool_name := tool_name r; duration := duration r |}.

(** [result.duration = d; result.service_name = s; result.tool_name = t] *)
Definition stamp (d : Z) (s t : string) (r : MCPCallResult) : MCPCallResult :=
  {| success := success r; data := data r; error := error r;
     execution_id := execution_id r;
     service_name := Some s; tool_name := Some t; duration := d |}.

(** One iteration of the polling loop as the environment answers it: the
    clock reading of the timeout test, then the outcome of the GET. *)
Record Tick := { tick_now : Z; tick_reply : exc Response }.

(** What the environment answers during one attempt of [call_service]. *)
Record Env := {
  t_start : Z;                 (* time.time() before the request *)
  post : exc Response;         (* outcome of POST {url}/execute *)
  w_start : Z;                 (* time.time() when polling starts *)
  ticks : list Tick;           (* the polling iterations *)
  t_update : Z;                (* time.time() for service.response_time *)
  t_result : Z;                (* time.time() for result.duration *)
  t_except : Z                 (* time.time() in an except clause *)
}.

Section Framework.

(** Python's [str()] on a decoded JSON value, as used by f-strings. *)
Variable str_json : json → string.

(** The body of [while True] in [_wait_for_completion]; [None] when the
    script of polling iterations ends before the loop does. *)
Fixpoint poll_loop (service : ServiceEndpoint) (execution_id : json)
    (timeout : Z) (start_time : Z) (script : list Tick)
    : option (MCPCallResult * list Request) :=
  match script with
  | [] => None
  | tk :: rest =>
    if timeout <? tick_now tk - start_time then
      Some (with_execution_id execution_id
              (failure (JStr ("Execution " +:+ str_json execution_id +:+ " timed out"))),
            [])
    else
      let req := GET (url service +:+ "/status/" +:+ str_json execution_id) None in
      let attempt : exc (option MCPCallResult) :=
        let? response := tick_reply tk in
        if http_status response =? 200 then
          let? status_data := json_body response in
          let? status := dict_get "status" status_data in
          if is_str status "completed" then
            let? result := dict_get "result" status_data in
            Ok (Some {| success := true; data := result; error := JNull;
                        execution_id := execution_id; service_name := None;
                        tool_name := None; duration := 0 |})
          else if is_str status "failed" then
            let? err := dict_get_default "error" (JStr "Execution failed") status_data in
            Ok (Some (with_execution_id execution_id (failure err)))
          else if is_str status "cancelled" then
            Ok (Some (with_execution_id execution_id
                        (failure (JStr "Execution cancelled"))))
          else Ok None   (* await asyncio.sleep(poll_interval); next iteration *)
        else
          Ok (Some (failure (JStr ("Failed to get status: HTTP "
                                     +:+ pretty (http_status response)))))
      in
      match attempt with
      | Raise e =>
          Some (failure (JStr ("Status check failed: " +:+ str_exn e)), [req])
      | Ok (Some r) => Some (r, [req])
      | Ok None =>
          match poll_loop service execution_id timeout start_time rest with
          | Some (r, log) => Some (r, req :: log)
          | None => None
          end
      end
  end.

Definition _wait_for_completion (service : ServiceEndpoint) (execution_id : json)
    (timeout : Z) (env : Env) : option (MCPCallResult * list Request) :=
  poll_loop service execution_id timeout (w_start env) (ticks env).

Definition request_data (tool_name : string) (parameters : json) : json :=
  JObj [("tool_name", JStr tool_name); ("parameters", parameters);
        ("priority", JNum 0)].

(** [timeout or service.timeout] *)
Definition timeout_or (timeout_arg : option Z) (service : ServiceEndpoint) : Z :=
  match timeout_arg with
  | Some t => if t =? 0 then timeout service else t
  | None => timeout service
  end.

(** The statements of the [try] block of [call_service] that build [result]:
    the POST, the decoding of the answer and, for a running execution, the
    polling.  [None] when the polling script is too short. *)
Definition try_block (service : ServiceEndpoint) (tool_name : string)
    (parameters : json) (timeout_val : Z) (env : Env)
    : option (exc MCPCallResult * list Request) :=
  let req := POST (url service +:+ "/execute")
                  (request_data tool_name parameters) timeout_val in
  match post env with
  | Raise e => Some (Raise e, [req])
  | Ok response =>
    if http_status response =? 200 then
      match json_body response with
      | Raise e => Some (Raise e, [req])
      | Ok result_data =>
        match dict_get "status" result_data with
        | Raise e => Some (Raise e, [req])
        | Ok st =>
          if is_str st "running" then
            match dict_get "execution_id" result_data with
            | Raise e => Some (Raise e, [req])
            | Ok execution_id =>
              if truthy execution_id then
                match _wait_for_completion service execution_id timeout_val env with
                | Some (result, log) => Some (Ok result, req :: log)
                | None => None
                end
              else Some (Ok (failure (JStr "No execution ID returned")), [req])
            end
          else
            match dict_get "execution_id" result_data with
            | Raise e => Some (Raise e, [req])
            | Ok execution_id =>
              Some (Ok {| success := true; data := result_data; error := JNull;
                          execution_id := execution_id; service_name := None;
                          tool_name := None; duration := 0 |}, [req])
            end
        end
      end
    else
      match text_body response with
      | Raise e => Some (Raise e, [req])
      | Ok error_text =>
          Some (Ok (failure (JStr ("HTTP " +:+ pretty (http_status response)
                                     +:+ ": " +:+ error_text))), [req])
      end
  end.

(** The undecorated [call_service]: registry checks, the [try] block and
    its two [except] clauses. *)
Definition call_service_body (service_name tool_name : string)
    (parameters : json) (timeout_arg : option Z)
    (services : gmap string ServiceEndpoint) (env : Env)
    : option (gmap string ServiceEndpoint * exc MCPCallResult * list Request) :=
  match services !! service_name with
  | None =>
      Some (services,
            Ok (failure (JStr ("Service '" +:+ service_name +:+ "' not found"))),
            [])
  | Some service =>
    if ServiceStatus_eqb (status service) UNHEALTHY then
      Some (services,
            Ok (failure (JStr ("Service '" +:+ service_name +:+ "' is unhealthy"))),
            [])
    else
      let start_time := t_start env in
      let timeout_val := timeout_or timeout_arg service in
      match try_block service tool_name parameters timeout_val env with
      | None => None
      | Some (Ok result, log) =>
          let service' :=
            set_status HEALTHY
              (set_error_count 0
                 (set_response_time (t_update env - start_time) service)) in
          Some (<[service_name := service']> services,
                Ok (stamp (t_result env - start_time) service_name tool_name result),
                log)
      | Some (Raise (TimeoutError _), log) =>
          let service' := set_error_count (error_count service + 1) service in
          Some (<[service_name := service']> services,
                Ok (stamp (t_except env - start_time) service_name tool_name
                      (failure (JStr ("Request to '" +:+ service_name
                                        +:+ "' timed out")))),
                log)
      | Some (Raise (OtherError msg), log) =>
          let service1 := set_error_count (error_count service + 1) service in
          let service' :=
            if max_errors service1 <=? error_count service1
            then set_status UNHEALTHY service1 else service1 in
          Some (<[service_name := service']> services,
                Ok (stamp (t_except env - start_time) service_name tool_name
                      (failure (JStr ("Request to '" +:+ service_name
                                        +:+ "' failed: " +:+ msg)))),
                log)
      end
  end.

(** [@backoff.on_exception(backoff.expo, Exception, max_tries=...)]: the
    wrapped function is tried again, against the environment of the next
    attempt, as long as it raises and tries remain; the last exception is
    re-raised. *)
Fixpoint on_exception {St A : Type} (max_tries : nat) (attempt : nat)
    (f : St → Env → option (St * exc A * list Request))
    (s : St) (envs : nat → Env) : option (St * exc A * list Request) :=
  match f s (envs attempt) with
  | None => None
  | Some (s', Ok a, log) => Some (s', Ok a, log)
  | Some (s', Raise e, log) =>
      match max_tries with
      | S (S _ as m) =>
          match on_exception m (S attempt) f s' envs with
          | Some (s'', r, log') => Some (s'', r, (log ++ log')%list)
          | None => None
          end
      | _ => Some (s', Raise e, log)
      end
  end.

Definition call_service (service_name tool_name : string)
    (parameters : json) (timeout_arg : option Z)
    (services : gmap string ServiceEndpoint) (envs : nat → Env)
    : option (gmap string ServiceEndpoint * exc MCPCallResult * list Request) :=
  on_exception 3 0
    (call_service_body service_name tool_name parameters timeout_arg)
    services envs.

(** [health_check]: [probe] is the outcome of the GET on the health
    address, [now] the clock reading stored in [last_check]. *)
Definition health_check (service_name : string)
    (services : gmap string ServiceEndpoint) (probe : exc Response) (now : Z)
    : gmap string ServiceEndpoint * exc bool * list Request :=
  match services !! service_name with
  | None => (services, Ok false, [])
  | Some service =>
    let req := GET (health_check_url service) (Some 10) in
    match probe with
    | Ok response =>
        let is_healthy := http_status response =? 200 in
        let service' :=
          set_last_check now
            (set_status (if is_healthy then HEALTHY else UNHEALTHY) service) in
        (<[service_name := service']> services, Ok is_healthy, [req])
    | Raise e =>
        let service' := set_last_check now (set_status UNHEALTHY service) in
        (<[service_name := service']> services, Ok false, [req])
    end
  end.

(** [n] calls of [call_service] in a row against the same scripted answers. *)
Fixpoint call_repeatedly (n : nat) (service_name tool_name : string)
    (parameters : json) (timeout_arg : option Z)
    (services : gmap string ServiceEndpoint) (envs : nat → Env)
    : option (gmap string ServiceEndpoint * list Request) :=
  match n with
  | O => Some (services, [])
  | S k =>
      match call_service service_name tool_name parameters timeout_arg services envs with
      | None => None
      | Some (services1, _, log) =>
          match call_repeatedly k service_name tool_name parameters timeout_arg
                  services1 envs with
          | Some (services2, log') => Some (services2, (log ++ log')%list)
          | None => None
          end
      end
  end.

(** A polling iteration that ends the loop: the deadline has passed, or
    the GET does not answer "keep waiting". *)
Definition keeps_waiting (reply : exc Response) : bool :=
  match reply with
  | Ok response =>
      (http_status response =? 200) &&
      match json_body response with
      | Ok (JObj kvs) =>
          let st := default JNull (assoc "status" kvs) in
          negb (is_str st "completed" || is_str st "failed" || is_str st "cancelled")
      | _ => false
      end
  | Raise _ => false
  end.

Definition decisive (timeout start_time : Z) (tk : Tick) : bool :=
  (timeout <? tick_now tk - start_time) || negb (keeps_waiting (tick_reply tk)).

(** A failed poll: a transport error or a status response other than 200. *)
Definition poll_failed (reply : exc Response) : bool :=
  match reply with
  | Ok response => negb (http_status response =? 200)
  | Raise _ => true
  end.

End Framework.

(** ** The default registry *)

(** The dictionary [default_services] of [_create_default_services]. *)
Definition default_services : gmap string ServiceEndpoint :=
  list_to_map
    [ ("postgis", new_endpoint "postgis" "http://localhost:8007"
                    "http://localhost:8007/health");
      ("filesystem", new_endpoint "filesystem" "http://localhost:8008"
                       "http://localhost:8008/health");
      ("climada", new_endpoint "climada" "http://localhost:8001"
                    "http://localhost:8001/health");
      ("lisflood", new_endpoint "lisflood" "http://localhost:8002"
                     "http://localhost:8002/health") ].

(** [self.services.update(default_services)]: a default replaces an entry
    of the same name. *)
Definition _create_default_services (services : gmap string ServiceEndpoint)
    : gmap string ServiceEndpoint :=
  default_services ∪ services.

(** ** Status reporting and the background checker *)

(** [ServiceStatus.value] *)
Definition status_value (s : ServiceStatus) : string :=
  match s with
  | HEALTHY => "healthy" | DEGRADED => "degraded"
  | UNHEALTHY => "unhealthy" | UNKNOWN => "unknown"
  end.

Definition get_service_status (service_name : string)
    (services : gmap string ServiceEndpoint) : json :=
  match services !! service_name with
  | None => JObj [("error", JStr "Service not found")]
  | Some service =>
      JObj [ ("name", JStr (name service));
             ("url", JStr (url service));
             ("status", JStr (status_value (status service)));
             ("last_check", JNum (last_check service));
             ("response_time", JNum (response_time service));
             ("error_count", JNum (error_count service)) ]
  end.

(** [list_services]: one entry per key of [self.services].  A Python dict
    lists its keys in insertion order, which the map does not record; the
    model lists them in the order of [map_to_list]. *)
Definition list_services (services : gmap string ServiceEndpoint) : list json :=
  (λ kv, get_service_status kv.1 services) <$> map_to_list services.

(** One round of the [health_checker] loop: [health_check] on every key of
    [self.services] in turn.  [probes] and [clock] give, for each service
    name, the outcome of its probe and the clock reading stored with it. *)
Definition health_round (probes : string → exc Response) (clock : string → Z)
    (services : gmap string ServiceEndpoint) : gmap string ServiceEndpoint :=
  foldl (λ svcs sn, (health_check sn svcs (probes sn) (clock sn)).1.1)
        services (map_to_list services).*1.

(** What a probe makes of a service. *)
Definition probed (probe : exc Response) (now : Z) (service : ServiceEndpoint)
    : ServiceEndpoint :=
  set_last_check now
    (set_status (match probe with
                 | Ok response =>
                     if http_status response =? 200 then HEALTHY else UNHEALTHY
                 | Raise _ => UNHEALTHY
                 end) service).

(** A polling iteration before the deadline that is told to keep waiting. *)
Definition waits (timeout start_time : Z) (tk : Tick) : Prop :=
  tick_now tk - start_time ≤ timeout ∧ keeps_waiting (tick_reply tk) = true.

(** ** The probe and the polling loop as the specification words them *)

(** "On success, resets error count to 0 and sets status Healthy; on failure
    increments error count and, once it reaches the threshold, sets status
    Unhealthy (otherwise Degraded)." *)
Definition probe_spec (before after : ServiceEndpoint) (succeeded : bool) : Prop :=
  if succeeded then
    error_count after = 0 ∧ status after = HEALTHY
  else
    error_count after = error_count before + 1 ∧
    status after = (if max_errors before <=? error_count after
                    then UNHEALTHY else DEGRADED).

(** "Once its consecutive-error count has reached the configured threshold
    its status is Unhealthy." *)
Definition breaker_open_at_threshold (s : ServiceEndpoint) : Prop :=
  max_errors s ≤ error_count s → status s = UNHEALTHY.

(** The body of an answer of the execute endpoint can be read: a JSON
    object for a 200, any text otherwise. *)
Definition body_readable (response : Response) : bool :=
  if http_status response =? 200 then
    match json_body response with Ok (JObj _) => true | _ => false end
  else
    match text_body response with Ok _ => true | Raise _ => false end.

Definition count_GET (log : list Request) : nat :=
  length (filter (λ q, is_POST q = false) log).

(** ** Sample data *)

Definition svc_a : ServiceEndpoint :=
  new_endpoint "a" "http://localhost:8001" "http://localhost:8001/health".

Definition reply (code : Z) (body : json) (text : string) : Response :=
  {| http_status := code; json_body := Ok body; text_body := Ok text |}.

(** An HTTP answer whose body is not JSON. *)
Definition reply_text (code : Z) (text : string) : Response :=
  {| http_status := code;
     json_body := Raise (OtherError "Attempt to decode JSON with unexpected mimetype");
     text_body := Ok text |}.

Definition env_of (p : exc Response) (script : list Tick) : Env :=
  {| t_start := 100; post := p; w_start := 101; ticks := script;
     t_update := 105; t_result := 106; t_except := 104 |}.

(** [str()] restricted to what the samples use: a string is itself. *)
Definition str_sample (j : json) : string :=
  match j with JStr s => s | JNum n => pretty n | _ => "" end.

Definition services_a : gmap string ServiceEndpoint := {[ "a" := svc_a ]}.
Definition services_healthy : gmap string ServiceEndpoint :=
  {[ "a" := set_status HEALTHY svc_a ]}.

(** POST answers of the wire contract. *)
Definition completed_now (x : string) (res : json) : json :=
  JObj [("status", JStr "completed"); ("result", res); ("execution_id", JStr x)].
Definition running_as (x : string) : json :=
  JObj [("status", JStr "running"); ("execution_id", JStr x)].
(** GET /status answers. *)
Definition status_completed (res : json) : json :=
  JObj [("status", JStr "completed"); ("result", res)].
Definition status_failed (msg : string) : json :=
  JObj [("status", JStr "failed"); ("error", JStr msg)].

Definition payload : json := JObj [("v", JNum 1)].

(** The execute endpoint answers with the finished result. *)
Definition env_immediate : nat → Env :=
  λ _, env_of (Ok (reply 200 (completed_now "x" payload) "")) [].
(** The execute endpoint answers "running"; the second poll reports the
    same result. *)
Definition env_polled : nat → Env :=
  λ _, env_of (Ok (reply 200 (running_as "x") ""))
         [ {| tick_now := 102; tick_reply := Ok (reply 200 (running_as "x") "") |};
           {| tick_now := 104; tick_reply := Ok (reply 200 (status_completed payload) "") |} ].
(** The same for an execution that failed remotely. *)
Definition env_immediate_failed : nat → Env :=
  λ _, env_of (Ok (reply 200 (JObj [("status", JStr "failed"); ("error", JStr "boom");
                                    ("execution_id", JStr "x")]) "")) [].
Definition env_polled_failed : nat → Env :=
  λ _, env_of (Ok (reply 200 (running_as "x") ""))
         [ {| tick_now := 102; tick_reply := Ok (reply 200 (status_failed "boom") "") |} ].
(** First poll answered 502, second poll would report completion. *)
Definition env_poll_502 : nat → Env :=
  λ _, env_of (Ok (reply 200 (running_as "x") ""))
         [ {| tick_now := 102; tick_reply := Ok (reply_text 502 "bad gateway") |};
           {| tick_now := 104; tick_reply := Ok (reply 200 (status_completed payload) "") |} ].
(** One poll answered "running", the next one broken off by the server,
    the third would report completion. *)
Definition env_poll_disconnected : nat → Env :=
  λ _, env_of (Ok (reply 200 (running_as "x") ""))
         [ {| tick_now := 102; tick_reply := Ok (reply 200 (running_as "x") "") |};
           {| tick_now := 104; tick_reply := Raise (OtherError "Server disconnected") |};
           {| tick_now := 106; tick_reply := Ok (reply 200 (status_completed payload) "") |} ].
Definition env_404 : nat → Env :=
  λ _, env_of (Ok (reply_text 404 "no such tool")) [].
(** A 200 whose body is the JSON array []. *)
Definition env_array : nat → Env :=
  λ _, env_of (Ok (reply 200 (JArr []) "[]")) [].
(** After one "running" answer the clock is past the 30 s deadline. *)
Definition env_slow : Env :=
  env_of (Ok (reply 200 (running_as "x") ""))
    [ {| tick_now := 102; tick_reply := Ok (reply 200 (running_as "x") "") |};
      {| tick_now := 200; tick_reply := Ok (reply 200 (status_completed payload) "") |} ].
(** "running" without an execution id. *)
Definition env_running_without_id : nat → Env :=
  λ _, env_of (Ok (reply 200 (JObj [("status", JStr "running")]) "")) [].
(** A service that reached its threshold and was set Unhealthy. *)
Definition svc_tripped : ServiceEndpoint :=
  set_status UNHEALTHY (set_error_count 3 svc_a).

Definition env_timeout : nat → Env :=
  λ _, env_of (Raise (TimeoutError "")) [].
Definition env_refused : nat → Env :=
  λ _, env_of (Raise (OtherError "Cannot connect to host")) [].

End Client.

(** * workflow/engine.py *)
Module Engine.

Module StepStatus.
Inductive t := PENDING | RUNNING | COMPLETED | FAILED | CANCELLED.
Definition eqb (a b : t) : bool :=
  match a, b with
  | PENDING, PENDING | RUNNING, RUNNING | COMPLETED, COMPLETED
  | FAILED, FAILED | CANCELLED, CANCELLED => true
  | _, _ => false
  end.
End StepStatus.

Module WorkflowStatus.
Inductive t := PENDING | RUNNING | COMPLETED | FAILED | CANCELLED.
End WorkflowStatus.

(** The timestamp fields ([start_time], [end_time], [execution_time],
    [created_at], ...) are written by the engine and never read by its
    scheduling code; they are left out of the records. *)
Record WorkflowStep := {
  id : string;
  name : string;
  description : string;
  step_type : string;
  parameters : json;
  dependencies : list string;
  status : StepStatus.t;
  result : json;
  error : option string
}.

Record WorkflowDefinition := {
  def_name : string;
  def_description : string;
  version : string;
  def_steps : list WorkflowStep;
  parameters_schema : json
}.

Record WorkflowInstance := {
  inst_id : string;
  workflow_name : string;
  inst_parameters : json;
  steps : list WorkflowStep;
  inst_status : WorkflowStatus.t;
  current_step : option string
}.

Definition set_step_status (v : StepStatus.t) (s : WorkflowStep) : WorkflowStep :=
  {| id := id s; name := name s; description := description s;
     step_type := step_type s; parameters := parameters s;
     dependencies := dependencies s; status := v; result := result s;
     error := error s |}.
Definition set_result (v : json) (s : WorkflowStep) : WorkflowStep :=
  {| id := id s; name := name s; description := description s;
     step_type := step_type s; parameters := parameters s;
     dependencies := dependencies s; status := status s; result := v;
     error := error s |}.
Definition set_error (v : option string) (s : WorkflowStep) : WorkflowStep :=
  {| id := id s; name := name s; description := description s;
     step_type := step_type s; parameters := parameters s;
     dependencies := dependencies s; status := status s; result := result s;
     error := v |}.

Definition set_steps (v : list WorkflowStep) (i : WorkflowInstance) :=
  {| inst_id := inst_id i; workflow_name := workflow_name i;
     inst_parameters := inst_parameters i; steps := v;
     inst_status := inst_status i; current_step := current_step i |}.
Definition set_inst_status (v : WorkflowStatus.t) (i : WorkflowInstance) :=
  {| inst_id := inst_id i; workflow_name := workflow_name i;
     inst_parameters := inst_parameters i; steps := steps i;
     inst_status := v; current_step := current_step i |}.
Definition set_current_step (v : option string) (i : WorkflowInstance) :=
  {| inst_id := inst_id i; workflow_name := workflow_name i;
     inst_parameters := inst_parameters i; steps := steps i;
     inst_status := inst_status i; current_step := v |}.

(** The step handlers, one per supported [step_type]; each sees the step
    and the instance and returns its result dictionary or raises. *)
Record Handlers := {
  _execute_data_fetch_step : WorkflowStep → WorkflowInstance → exc json;
  _execute_mcp_call_step : WorkflowStep → WorkflowInstance → exc json;
  _execute_data_save_step : WorkflowStep → WorkflowInstance → exc json;
  _execute_geoserver_publish_step : WorkflowStep → WorkflowInstance → exc json;
  _execute_parallel_mcp_calls_step : WorkflowStep → WorkflowInstance → exc json;
  _execute_data_integration_step : WorkflowStep → WorkflowInstance → exc json
}.

(** One assignment to [step.status]: which step (its position in
    [instance.steps]), the status it had and the status written. *)
Record Transition := { tr_step : nat; tr_from : StepStatus.t; tr_to : StepStatus.t }.

(** The local state of one [execute_workflow] call. *)
Record Run := {
  instance : WorkflowInstance;
  completed_steps : gset string;
  trace : list Transition          (* oldest first *)
}.

Inductive flow :=
| Normal                 (* fell through *)
| Returned               (* executed [return] *)
| Raised (e : exn).      (* an exception is propagating *)

Section WithHandlers.

Variable self : Handlers.

(** The [if/elif] chain on [step.step_type]. *)
Definition dispatch (step : WorkflowStep) (inst : WorkflowInstance) : exc json :=
  if String.eqb (step_type step) "data_fetch" then
    _execute_data_fetch_step self step inst
  else if String.eqb (step_type step) "mcp_call" then
    _execute_mcp_call_step self step inst
  else if String.eqb (step_type step) "data_save" then
    _execute_data_save_step self step inst
  else if String.eqb (step_type step) "geoserver_publish" then
    _execute_geoserver_publish_step self step inst
  else if String.eqb (step_type step) "parallel_mcp_calls" then
    _execute_parallel_mcp_calls_step self step inst
  else if String.eqb (step_type step) "data_integration" then
    _execute_data_integration_step self step inst
  else Raise (OtherError ("不支持的步骤类型: " +:+ step_type step)).

(** [_execute_step] on the step at position [i] of the instance. *)
Definition _execute_step (i : nat) (step : WorkflowStep) (run : Run)
    : Run * exc unit :=
  let inst := instance run in
  let step1 := set_step_status StepStatus.RUNNING step in
  let inst1 := set_steps (<[i := step1]> (steps inst)) inst in
  let trace1 := (trace run ++ [{| tr_step := i; tr_from := status step;
                                  tr_to := StepStatus.RUNNING |}])%list in
  match dispatch step1 inst1 with
  | Ok res =>
      let step2 := set_step_status StepStatus.COMPLETED (set_result res step1) in
      ({| instance := set_steps (<[i := step2]> (steps inst1)) inst1;
          completed_steps := completed_steps run;
          trace := (trace1 ++ [{| tr_step := i; tr_from := StepStatus.RUNNING;
                                  tr_to := StepStatus.COMPLETED |}])%list |},
       Ok ())
  | Raise e =>
      let step2 := set_step_status StepStatus.FAILED
                     (set_error (Some (str_exn e)) step1) in
      ({| instance := set_steps (<[i := step2]> (steps inst1)) inst1;
          completed_steps := completed_steps run;
          trace := (trace1 ++ [{| tr_step := i; tr_from := StepStatus.RUNNING;
                                  tr_to := StepStatus.FAILED |}])%list |},
       Raise e)
  end.

(** [all(dep in completed_steps for dep in step.dependencies)] *)
Definition deps_satisfied (step : WorkflowStep) (done : gset string) : bool :=
  forallb (λ dep, bool_decide (dep ∈ done)) (dependencies step).

(** [for step in instance.steps: ...], over the positions still to visit. *)
Fixpoint for_steps (positions : list nat) (run : Run) : Run * flow :=
  match positions with
  | [] => (run, Normal)
  | i :: rest =>
    match steps (instance run) !! i with
    | None => for_steps rest run
    | Some step =>
      if bool_decide (id step ∈ completed_steps run) then for_steps rest run
      else if deps_satisfied step (completed_steps run) then
        match _execute_step i step run with
        | (run1, Raise e) => (run1, Raised e)
        | (run1, Ok _) =>
            let run2 :=
              {| instance := set_current_step (Some (id step)) (instance run1);
                 completed_steps := completed_steps run1 ∪ {[ id step ]};
                 trace := trace run1 |} in
            match steps (instance run2) !! i with
            | Some step' =>
                if StepStatus.eqb (status step') StepStatus.FAILED then
                  ({| instance := set_inst_status WorkflowStatus.FAILED (instance run2);
                      completed_steps := completed_steps run2;
                      trace := trace run2 |}, Returned)
                else for_steps rest run2
            | None => for_steps rest run2
            end
        end
      else for_steps rest run
    end
  end.

(** [while len(completed_steps) < len(instance.steps): ...]; [None] when
    [fuel] iterations were not enough. *)
Fixpoint while_loop (fuel : nat) (run : Run) : option (Run * flow) :=
  match fuel with
  | O => None
  | S fuel' =>
    if (size (completed_steps run) <? length (steps (instance run)))%nat then
      match for_steps (seq 0 (length (steps (instance run)))) run with
      | (run1, Normal) =>
          if (size (completed_steps run1) =? 0)%nat then
            Some ({| instance := set_inst_status WorkflowStatus.FAILED (instance run1);
                     completed_steps := completed_steps run1;
                     trace := trace run1 |}, Returned)
          else while_loop fuel' run1
      | (run1, fl) => Some (run1, fl)
      end
    else Some (run, Normal)
  end.

(** [execute_workflow]: the instance store after the call, whether the
    call returned or raised, and the status assignments it made. *)
Definition execute_workflow (fuel : nat) (instance_id : string)
    (workflow_instances : gmap string WorkflowInstance)
    : option (gmap string WorkflowInstance * exc unit * list Transition) :=
  match workflow_instances !! instance_id with
  | None =>
      Some (workflow_instances,
            Raise (OtherError ("工作流实例 " +:+ instance_id +:+ " 不存在")),
            [])
  | Some inst =>
    let run0 := {| instance := set_inst_status WorkflowStatus.RUNNING inst;
                   completed_steps := ∅; trace := [] |} in
    match while_loop fuel run0 with
    | None => None
    | Some (run, Normal) =>
        Some (<[instance_id := set_inst_status WorkflowStatus.COMPLETED (instance run)]>
                workflow_instances, Ok (), trace run)
    | Some (run, Returned) =>
        Some (<[instance_id := instance run]> workflow_instances, Ok (), trace run)
    | Some (run, Raised e) =>
        Some (<[instance_id := set_inst_status WorkflowStatus.FAILED (instance run)]>
                workflow_instances, Raise e, trace run)
    end
  end.

(** [execute_workflow_background]: the [except Exception] clause marks the
    instance Failed and swallows the exception. *)
Definition execute_workflow_background (fuel : nat) (instance_id : string)
    (workflow_instances : gmap string WorkflowInstance)
    : option (gmap string WorkflowInstance * exc unit * list Transition) :=
  match execute_workflow fuel instance_id workflow_instances with
  | None => None
  | Some (insts, Ok u, tr) => Some (insts, Ok u, tr)
  | Some (insts, Raise e, tr) =>
      match insts !! instance_id with
      | Some inst =>
          Some (<[instance_id := set_inst_status WorkflowStatus.FAILED inst]> insts,
                Ok (), tr)
      | None => Some (insts, Ok (), tr)
      end
  end.

End WithHandlers.

(** [start_workflow]: [instance_id] stands for the fresh [uuid4]. *)
Definition clone_step (step_def : WorkflowStep) : WorkflowStep :=
  {| id := id step_def; name := name step_def;
     description := description step_def; step_type := step_type step_def;
     parameters := parameters step_def; dependencies := dependencies step_def;
     status := StepStatus.PENDING; result := JNull; error := None |}.

Definition start_workflow (workflow_name : string) (params : json)
    (instance_id : string)
    (workflow_definitions : gmap string WorkflowDefinition)
    (workflow_instances : gmap string WorkflowInstance)
    : gmap string WorkflowInstance * exc string :=
  match workflow_definitions !! workflow_name with
  | None =>
      (workflow_instances,
       Raise (OtherError ("工作流 " +:+ workflow_name +:+ " 不存在")))
  | Some definition =>
      let inst := {| inst_id := instance_id; workflow_name := workflow_name;
                     inst_parameters := params;
                     steps := map clone_step (def_steps definition);
                     inst_status := WorkflowStatus.PENDING;
                     current_step := None |} in
      (<[instance_id := inst]> workflow_instances, Ok instance_id)
  end.

(** [cancel_workflow]; [running_instances] is never filled by the engine, so
    the task-cancelling branch is not taken.  The assignment to
    [instance.end_time] has no counterpart: the records carry no timestamps. *)
Definition cancel_workflow (instance_id : string)
    (workflow_instances : gmap string WorkflowInstance)
    : gmap string WorkflowInstance * bool :=
  match workflow_instances !! instance_id with
  | None => (workflow_instances, false)
  | Some inst =>
      match inst_status inst with
      | WorkflowStatus.COMPLETED | WorkflowStatus.FAILED =>
          (workflow_instances, false)
      | _ =>
          (<[instance_id := set_inst_status WorkflowStatus.CANCELLED inst]>
             workflow_instances, true)
      end
  end.

(** ** Vocabulary of the properties *)

(** Status changes the specification allows: Pending to Running, Running
    to a terminal status. *)
Definition forward (a b : StepStatus.t) : bool :=
  match a, b with
  | StepStatus.PENDING, StepStatus.RUNNING => true
  | StepStatus.RUNNING, (StepStatus.COMPLETED | StepStatus.FAILED | StepStatus.CANCELLED) => true
  | _, _ => false
  end.

Definition forward_trace (tr : list Transition) : Prop :=
  Forall (λ t, forward (tr_from t) (tr_to t) = true) tr.

(** No assignment of Failed in the trace. *)
Definition clean (tr : list Transition) : Prop :=
  Forall (λ t, tr_to t ≠ StepStatus.FAILED) tr.

Definition all_pending (inst : WorkflowInstance) : Prop :=
  Forall (λ s, status s = StepStatus.PENDING) (steps inst).

(** Steps the run never assigned a status to are as they were. *)
Definition untouched (inst0 : WorkflowInstance) (run : Run) : Prop :=
  ∀ j, (∀ t, t ∈ trace run → tr_step t ≠ j) →
       steps (instance run) !! j = steps inst0 !! j.

Definition pending_or_done (run : Run) : Prop :=
  ∀ i s, steps (instance run) !! i = Some s →
         status s = StepStatus.PENDING ∨ id s ∈ completed_steps run.

Fixpoint count {A : Type} (p : A → bool) (l : list A) : nat :=
  match l with
  | [] => 0%nat
  | x :: l' => ((if p x then 1 else 0) + count p l')%nat
  end.

(** The step is Completed and its id is in [completed_steps]. *)
Definition recorded (done : gset string) (s : WorkflowStep) : bool :=
  bool_decide (id s ∈ done) && StepStatus.eqb (status s) StepStatus.COMPLETED.

(** What holds of a run at every point, relative to the instance [inst0]
    it started from. *)
Record Common (inst0 : WorkflowInstance) (run : Run) : Prop := {
  c_len : length (steps (instance run)) = length (steps inst0);
  c_untouched : untouched inst0 run;
  c_forward : all_pending inst0 → forward_trace (trace run)
}.

(** The invariant of the scan: so far no step failed. *)
Record Inv (inst0 : WorkflowInstance) (run : Run) : Prop := {
  inv_common : Common inst0 run;
  inv_clean : clean (trace run);
  inv_count : (size (completed_steps run)
               ≤ count (recorded (completed_steps run)) (steps (instance run)))%nat;
  inv_status : inst_status (instance run) = WorkflowStatus.RUNNING;
  inv_pending : all_pending inst0 → pending_or_done run
}.

(** What holds when the scan leaves with control flow [fl]. *)
Definition Post (inst0 : WorkflowInstance) (run : Run) (fl : flow) : Prop :=
  match fl with
  | Normal => Inv inst0 run
  | Returned =>
      Common inst0 run ∧ clean (trace run)
      ∧ inst_status (instance run) = WorkflowStatus.FAILED
  | Raised e =>
      Common inst0 run
      ∧ inst_status (instance run) = WorkflowStatus.RUNNING
      ∧ ∃ pre i s,
          trace run = (pre ++ [{| tr_step := i; tr_from := StepStatus.RUNNING;
                                  tr_to := StepStatus.FAILED |}])%list
          ∧ clean pre
          ∧ steps (instance run) !! i = Some s
          ∧ status s = StepStatus.FAILED ∧ error s = Some (str_exn e)
  end.

(** ** Sample data *)

Definition ok_handler : WorkflowStep → WorkflowInstance → exc json :=
  λ _ _, Ok (JObj [("success", JBool true)]).

(** Handlers that always return, like the simulated handlers of the engine
    do on well-formed parameters. *)
Definition ok_handlers : Handlers :=
  {| _execute_data_fetch_step := ok_handler;
     _execute_mcp_call_step := ok_handler;
     _execute_data_save_step := ok_handler;
     _execute_geoserver_publish_step := ok_handler;
     _execute_parallel_mcp_calls_step := ok_handler;
     _execute_data_integration_step := ok_handler |}.

(** Handlers whose data source is down: fetching raises. *)
Definition failing_fetch_handlers : Handlers :=
  {| _execute_data_fetch_step := λ _ _, Raise (OtherError "source unavailable");
     _execute_mcp_call_step := ok_handler;
     _execute_data_save_step := ok_handler;
     _execute_geoserver_publish_step := ok_handler;
     _execute_parallel_mcp_calls_step := ok_handler;
     _execute_data_integration_step := ok_handler |}.

Definition mk_step (i ty : string) (deps : list string) : WorkflowStep :=
  {| id := i; name := i; description := ""; step_type := ty;
     parameters := JObj []; dependencies := deps;
     status := StepStatus.PENDING; result := JNull; error := None |}.

Definition mk_instance (l : list WorkflowStep) : WorkflowInstance :=
  {| inst_id := "i"; workflow_name := "w"; inst_parameters := JObj [];
     steps := l; inst_status := WorkflowStatus.PENDING; current_step := None |}.

(** [a] has no dependency; [b] and [c] depend on each other. *)
Definition cyclic_steps : list WorkflowStep :=
  [ mk_step "a" "data_fetch" []; mk_step "b" "mcp_call" ["c"];
    mk_step "c" "data_save" ["b"] ].

(** The scenario of the specification: two steps that depend on each other. *)
Definition two_cycle_steps : list WorkflowStep :=
  [ mk_step "a" "data_fetch" ["b"]; mk_step "b" "mcp_call" ["a"] ].

(** [email] is not a supported step type. *)
Definition unsupported_steps : list WorkflowStep :=
  [ mk_step "a" "data_fetch" []; mk_step "b" "email" ["a"];
    mk_step "c" "data_save" ["b"] ].

Definition chain_steps : list WorkflowStep :=
  [ mk_step "a" "data_fetch" []; mk_step "b" "mcp_call" ["a"] ].

Definition set_steps_of (l : list WorkflowStep) : gmap string WorkflowInstance :=
  {[ "i" := mk_instance l ]}.

(** The run on [cyclic_steps] after its first scan: [a] is done, [b] and
    [c] wait for each other. *)
Definition cyclic_after_first_scan : Run :=
  {| instance :=
       {| inst_id := "i"; workflow_name := "w"; inst_parameters := JObj [];
          steps := [ set_step_status StepStatus.COMPLETED
                       (set_result (JObj [("success", JBool true)])
                          (mk_step "a" "data_fetch" []));
                     mk_step "b" "mcp_call" ["c"];
                     mk_step "c" "data_save" ["b"] ];
          inst_status := WorkflowStatus.RUNNING;
          current_step := Some "a" |};
     completed_steps := {[ "a" ]};
     trace := [ {| tr_step := 0; tr_from := StepStatus.PENDING;
                   tr_to := StepStatus.RUNNING |};
                {| tr_step := 0; tr_from := StepStatus.RUNNING;
                   tr_to := StepStatus.COMPLETED |} ] |}.

(** ** The predefined workflows *)

(** [WorkflowStep(id=.., name=.., description=.., step_type=..,
    parameters=.., dependencies=..)] with the dataclass defaults. *)
Definition new_step (i n d ty : string) (params : json) (deps : list string)
    : WorkflowStep :=
  {| id := i; name := n; description := d; step_type := ty;
     parameters := params; dependencies := deps;
     status := StepStatus.PENDING; result := JNull; error := None |}.

Definition nfdrs4_workflow : WorkflowDefinition :=
  {| def_name := "nfdrs4_fire_risk_assessment";
     def_description := "NFDRS4火灾风险评估完整工作流";
     version := "1.0.0";
     def_steps :=
     [
       new_step "step_1" "fetch_fire_event_data"
         "从数据库获取火灾事件数据"
         "data_fetch"
         (JObj [("data_type", JStr "fire_event"); ("filters", JObj [])])
         [];
       new_step "step_2" "call_nfdrs4_risk_assessment"
         "调用NFDRS4火灾风险评估工具"
         "mcp_call"
         (JObj [ ("service", JStr "nfdrs4");
                ("tool", JStr "nfdrs4_fire_risk_assessment");
                ("arguments", JObj []) ])
         ["step_1"];
       new_step "step_3" "save_assessment_result"
         "将风险评估结果保存到数据库"
         "data_save"
         (JObj [("table", JStr "risk_assessments"); ("data", JObj [])])
         ["step_2"];
       new_step "step_4" "publish_to_geoserver"
         "通过GeoServer发布结果到前端"
         "geoserver_publish"
         (JObj [("layer_name", JStr "nfdrs4_fire_risk"); ("data", JObj [])])
         ["step_3"] ];
     parameters_schema :=
       JObj [ ("type", JStr "object");
             ("properties", JObj [ ("location", JObj [("type", JStr "string"); ("description", JStr "火灾发生地点")]);
               ("coordinates", JObj [("type", JStr "object"); ("description", JStr "地理坐标")]);
               ("fuel_type", JObj [("type", JStr "string"); ("description", JStr "燃料类型")]);
               ("weather_conditions", JObj [("type", JStr "string"); ("description", JStr "天气条件")]) ]);
             ("required", JArr [JStr "location"; JStr "coordinates"]) ] |}.

Definition lisflood_workflow : WorkflowDefinition :=
  {| def_name := "lisflood_flood_risk_assessment";
     def_description := "LISFLOOD洪水风险评估完整工作流";
     version := "1.0.0";
     def_steps :=
     [
       new_step "step_1" "fetch_flood_event_data"
         "从数据库获取洪水事件数据"
         "data_fetch"
         (JObj [("data_type", JStr "flood_event"); ("filters", JObj [])])
         [];
       new_step "step_2" "call_lisflood_risk_assessment"
         "调用LISFLOOD洪水风险评估工具"
         "mcp_call"
         (JObj [ ("service", JStr "lisflood");
                ("tool", JStr "lisflood_flood_risk_assessment");
                ("arguments", JObj []) ])
         ["step_1"];
       new_step "step_3" "save_assessment_result"
         "将风险评估结果保存到数据库"
         "data_save"
         (JObj [("table", JStr "risk_assessments"); ("data", JObj [])])
         ["step_2"];
       new_step "step_4" "publish_to_geoserver"
         "通过GeoServer发布结果到前端"
         "geoserver_publish"
         (JObj [("layer_name", JStr "lisflood_flood_risk"); ("data", JObj [])])
         ["step_3"] ];
     parameters_schema :=
       JObj [ ("type", JStr "object");
             ("properties", JObj [ ("location", JObj [("type", JStr "string"); ("description", JStr "洪水发生地点")]);
               ("coordinates", JObj [("type", JStr "object"); ("description", JStr "地理坐标")]);
               ("water_level", JObj [("type", JStr "number"); ("description", JStr "水位高度")]);
               ("rainfall_intensity", JObj [("type", JStr "string"); ("description", JStr "降雨强度")]) ]);
             ("required", JArr [JStr "location"; JStr "coordinates"]) ] |}.

Definition climada_workflow : WorkflowDefinition :=
  {| def_name := "climada_climate_risk_assessment";
     def_description := "CLIMADA气候风险评估完整工作流";
     version := "1.0.0";
     def_steps :=
     [
       new_step "step_1" "fetch_climate_event_data"
         "从数据库获取气候事件数据"
         "data_fetch"
         (JObj [("data_type", JStr "climate_event"); ("filters", JObj [])])
         [];
       new_step "step_2" "call_climada_risk_quantification"
         "调用CLIMADA气候风险评估工具"
         "mcp_call"
         (JObj [ ("service", JStr "climada");
                ("tool", JStr "climada_risk_quantification");
                ("arguments", JObj []) ])
         ["step_1"];
       new_step "step_3" "save_assessment_result"
         "将风险评估结果保存到数据库"
         "data_save"
         (JObj [("table", JStr "risk_assessments"); ("data", JObj [])])
         ["step_2"];
       new_step "step_4" "publish_to_geoserver"
         "通过GeoServer发布结果到前端"
         "geoserver_publish"
         (JObj [("layer_name", JStr "climada_climate_risk"); ("data", JObj [])])
         ["step_3"] ];
     parameters_schema :=
       JObj [ ("type", JStr "object");
             ("properties", JObj [ ("location", JObj [("type", JStr "string"); ("description", JStr "气候事件发生地点")]);
               ("coordinates", JObj [("type", JStr "object"); ("description", JStr "地理坐标")]);
               ("climate_type", JObj [("type", JStr "string"); ("description", JStr "气候类型")]);
               ("wind_speed", JObj [("type", JStr "number"); ("description", JStr "风速")]) ]);
             ("required", JArr [JStr "location"; JStr "coordinates"]) ] |}.

Definition comprehensive_workflow : WorkflowDefinition :=
  {| def_name := "comprehensive_disaster_assessment";
     def_description := "综合灾害评估工作流（多模型协同）";
     version := "1.0.0";
     def_steps :=
     [
       new_step "step_1" "fetch_comprehensive_data"
         "从数据库获取综合灾害数据"
         "data_fetch"
         (JObj [("data_type", JStr "comprehensive_disaster"); ("filters", JObj [])])
         [];
       new_step "step_2" "parallel_model_assessment"
         "并行调用多个模型进行评估"
         "parallel_mcp_calls"
         (JObj [ ("services", JArr [JStr "nfdrs4"; JStr "lisflood"; JStr "climada"]);
                ("tools", JArr [JStr "fire_risk"; JStr "flood_risk"; JStr "climate_risk"]) ])
         ["step_1"];
       new_step "step_3" "integrate_results"
         "整合多个模型的评估结果"
         "data_integration"
         (JObj [("integration_method", JStr "weighted_average")])
         ["step_2"];
       new_step "step_4" "save_integrated_result"
         "保存整合后的评估结果"
         "data_save"
         (JObj [("table", JStr "integrated_assessments"); ("data", JObj [])])
         ["step_3"];
       new_step "step_5" "publish_comprehensive_layer"
         "发布综合评估结果到GeoServer"
         "geoserver_publish"
         (JObj [("layer_name", JStr "comprehensive_disaster_risk"); ("data", JObj [])])
         ["step_4"] ];
     parameters_schema :=
       JObj [ ("type", JStr "object");
             ("properties", JObj [ ("location", JObj [("type", JStr "string"); ("description", JStr "灾害发生地点")]);
               ("coordinates", JObj [("type", JStr "object"); ("description", JStr "地理坐标")]);
               ("disaster_types", JObj [("type", JStr "array"); ("description", JStr "灾害类型列表")]) ]);
             ("required", JArr [JStr "location"; JStr "coordinates"; JStr "disaster_types"]) ] |}.

(** [_initialize_workflows]: the four definitions are registered under
    their names. *)
Definition _initialize_workflows
    (workflow_definitions : gmap string WorkflowDefinition)
    : gmap string WorkflowDefinition :=
  <[def_name comprehensive_workflow := comprehensive_workflow]>
    (<[def_name climada_workflow := climada_workflow]>
       (<[def_name lisflood_workflow := lisflood_workflow]>
          (<[def_name nfdrs4_workflow := nfdrs4_workflow]> workflow_definitions))).

(** The step types [_execute_step] has a handler for. *)
Definition supported_step_types : list string :=
  [ "data_fetch"; "mcp_call"; "data_save"; "geoserver_publish";
    "parallel_mcp_calls"; "data_integration" ].

(** Every handler returns on every step. *)
Definition all_handlers_return (self : Handlers) : Prop :=
  ∀ step inst, step_type step ∈ supported_step_types →
    ∃ res, dispatch self step inst = Ok res.

(** ** Vocabulary of further properties *)

(** Two steps that differ at most in status, result and error. *)
Definition same_identity (a b : WorkflowStep) : Prop :=
  id a = id b ∧ name a = name b ∧ description a = description b
  ∧ step_type a = step_type b ∧ parameters a = parameters b
  ∧ dependencies a = dependencies b.

(** The identity of the instance and of its steps, as an invariant. *)
Definition keeps_identity (inst : WorkflowInstance) (run : Run) : Prop :=
  inst_id (instance run) = inst_id inst
  ∧ workflow_name (instance run) = workflow_name inst
  ∧ inst_parameters (instance run) = inst_parameters inst
  ∧ Forall2 same_identity (steps (instance run)) (steps inst).


(** Before anything ran, nothing changed; and an empty [completed_steps]
    after something ran means that a step failed. *)
Definition nothing_ran_yet (inst : WorkflowInstance) (run : Run) : Prop :=
  (trace run = [] → steps (instance run) = steps inst)
  ∧ (size (completed_steps run) = 0%nat → clean (trace run) → trace run = []).

(** Ids in [completed_steps] are ids of steps of the instance. *)
Definition completed_are_ids (inst : WorkflowInstance) (run : Run) : Prop :=
  completed_steps run ⊆ list_to_set (id <$> steps inst).

(** Every handler called for a step type of the instance returns. *)
Definition handlers_return (self : Handlers) (inst : WorkflowInstance) : Prop :=
  ∀ step inst', step_type step ∈ (step_type <$> steps inst) →
    ∃ res, dispatch self step inst' = Ok res.

(** [rank] shows the dependency graph to be acyclic: every dependency of
    a step is the id of a step of the list, of lower rank. *)
Definition ranked (rank : string → nat) (l : list WorkflowStep) : Prop :=
  ∀ s d, s ∈ l → d ∈ dependencies s →
    ∃ s', s' ∈ l ∧ id s' = d ∧ (rank d < rank (id s))%nat.

(** A checker for [topologically_ordered]. *)
Fixpoint ordered_from (seen : list string) (l : list WorkflowStep) : bool :=
  match l with
  | [] => true
  | s :: rest =>
      forallb (λ d, bool_decide (d ∈ seen)) (dependencies s)
      && ordered_from (seen ++ [id s]) rest
  end.



(** Every dependency of a step is the id of a step placed before it. *)
Definition topologically_ordered (l : list WorkflowStep) : Prop :=
  ∀ i s d, l !! i = Some s → d ∈ dependencies s →
    ∃ j s', (j < i)%nat ∧ l !! j = Some s' ∧ id s' = d.

(** The status assignments of a run that starts and completes the steps
    at the given positions, one after the other. *)
Definition run_in_order (positions : list nat) : list Transition :=
  positions ≫= λ i,
    [ {| tr_step := i; tr_from := StepStatus.PENDING; tr_to := StepStatus.RUNNING |};
      {| tr_step := i; tr_from := StepStatus.RUNNING; tr_to := StepStatus.COMPLETED |} ].

(** The state a run is in after [_execute_step] returned for [step]:
    [completed_steps.add(step.id)] and [instance.current_step = step.id]. *)
(** ** Further sample data *)

(** Two steps with the same id; the first has an unsupported type. *)
Definition duplicate_steps : list WorkflowStep :=
  [ mk_step "a" "email" []; mk_step "a" "data_fetch" [] ].

(** [b] is listed before the step [a] it depends on. *)
Definition reversed_steps : list WorkflowStep :=
  [ mk_step "b" "mcp_call" ["a"]; mk_step "a" "data_fetch" [] ].

Definition rank_ab (d : string) : nat := if String.eqb d "b" then 1 else 0.

Definition mark_completed (step : WorkflowStep) (run1 : Run) : Run :=
  {| instance := set_current_step (Some (id step)) (instance run1);
     completed_steps := completed_steps run1 ∪ {[ id step ]};
     trace := trace run1 |}.

Definition with_inst_status (v : WorkflowStatus.t) (run : Run) : Run :=
  {| instance := set_inst_status v (instance run);
     completed_steps := completed_steps run;
     trace := trace run |}.

End Engine.

(** * api/workflow_api.py: the workflow endpoints *)
Module Api.

Record HTTPException := { status_code : Z; detail : string }.

(** An endpoint answers with a body or raises an [HTTPException], which
    the framework turns into an error response with that status code. *)
Inductive answer :=
| Respond (body : json)
| HttpError (e : HTTPException).

(** The stores of the global [workflow_engine]. *)
Record EngineState := {
  workflow_definitions : gmap string Engine.WorkflowDefinition;
  workflow_instances : gmap string Engine.WorkflowInstance
}.

(** [WorkflowStartRequest], the validated body of a start request:
    [workflow_name: str] and [parameters: Dict[str, Any]].  A body that does
    not validate (a field missing, [parameters] not an object) is answered
    422 by the framework and never reaches the handler, so the handler is a
    function of this record. *)
Record WorkflowStartRequest := {
  workflow_name : string;
  parameters : list (string * json)
}.

Section Endpoints.

(** Python's [str()] on an [HTTPException]. *)
Variable str_http : HTTPException → string.

(** The handler of [POST /api/workflows/start]: [workflow_engine] is [None]
    before the start-up event; [fresh_id] stands for the [uuid4] drawn by
    the engine.  The last component lists the instance ids handed to
    [background_tasks.add_task(workflow_engine.execute_workflow_background, ..)]. *)
Definition start_workflow (workflow_engine : option EngineState)
    (request : WorkflowStartRequest) (fresh_id : string)
    : option EngineState * answer * list string :=
  match workflow_engine with
  | None =>
      (None, HttpError {| status_code := 500; detail := "工作流引擎未初始化" |}, [])
  | Some engine =>
      match Engine.start_workflow (workflow_name request)
              (JObj (parameters request)) fresh_id
              (workflow_definitions engine) (workflow_instances engine) with
      | (insts, Ok instance_id) =>
          (Some {| workflow_definitions := workflow_definitions engine;
                   workflow_instances := insts |},
           Respond (JObj [ ("success", JBool true);
                           ("instance_id", JStr instance_id);
                           ("message", JStr ("工作流 " +:+ workflow_name request
                                               +:+ " 启动成功")) ]),
           [instance_id])
      | (insts, Raise e) =>
          (Some {| workflow_definitions := workflow_definitions engine;
                   workflow_instances := insts |},
           HttpError {| status_code := 500;
                        detail := "启动失败: " +:+ str_exn e |},
           [])
      end
  end.

(** [POST /api/workflows/instances/{instance_id}/cancel]: the
    [HTTPException] raised in the [else] branch is raised inside the [try],
    whose [except Exception] clause catches it. *)
Definition cancel_workflow (workflow_engine : option EngineState)
    (instance_id : string) : option EngineState * answer :=
  match workflow_engine with
  | None =>
      (None, HttpError {| status_code := 500; detail := "工作流引擎未初始化" |})
  | Some engine =>
      let '(insts, success) :=
        Engine.cancel_workflow instance_id (workflow_instances engine) in
      let try_body : HTTPException + json :=
        if success then
          inr (JObj [ ("success", JBool true);
                      ("message", JStr "工作流取消成功") ])
        else
          inl {| status_code := 400; detail := "无法取消已完成的工作流" |} in
      (Some {| workflow_definitions := workflow_definitions engine;
               workflow_instances := insts |},
       match try_body with
       | inr body => Respond body
       | inl e =>
           HttpError {| status_code := 500;
                        detail := "取消失败: " +:+ str_http e |}
       end)
  end.

End Endpoints.

End Api.

(** * Properties of the service client *)
Module ClientProps.
Import Client.

Section Framework.

Variable str_json : json → string.

Implicit Types (services : gmap string ServiceEndpoint) (env : Env)
  (envs : nat → Env) (sn tn : string) (params : json) (t : option Z).

(** ** The decorator never fires *)

Lemma try_block_log svc tn params tv env r log :
  try_block str_json svc tn params tv env = Some (r, log) →
  ∃ rest, log = POST (url svc +:+ "/execute") (request_data tn params) tv :: rest
          ∧ Forall (λ q, is_POST q = false) rest.
Proof.
  unfold try_block. intros H.
  repeat match type of H with
  | context [match ?x with _ => _ end] => destruct x eqn:?
  | context [if ?b then _ else _] => destruct b eqn:?
  end; simplify_eq; try (eexists; split; [reflexivity | constructor]).
  eexists; split; [reflexivity|].
  unfold _wait_for_completion in *.
  match goal with H : poll_loop _ _ _ _ _ _ = Some _ |- _ => revert H end.
  generalize (ticks env). clear. intros script. revert l.
  induction script as [|tk rest IH]; intros l H; simpl in H; [done|].
  repeat match type of H with
  | context [match ?x with _ => _ end] => destruct x eqn:?
  | context [if ?b then _ else _] => destruct b eqn:?
  end; simplify_eq; repeat constructor; eauto.
Qed.

Lemma call_service_body_returns sn tn params t services env s' r log :
  call_service_body str_json sn tn params t services env = Some (s', r, log) →
  ∃ res, r = Ok res.
Proof.
  unfold call_service_body. intros H.
  repeat match type of H with
  | context [match ?x with _ => _ end] => destruct x eqn:?
  | context [if ?b then _ else _] => destruct b eqn:?
  end; simplify_eq; eauto.
Qed.

Lemma call_service_unfold sn tn params t services envs :
  call_service str_json sn tn params t services envs
  = call_service_body str_json sn tn params t services (envs 0%nat).
Proof.
  unfold call_service. simpl.
  destruct (call_service_body _ _ _ _ _ _ _) as [[[s' r] log]|] eqn:E; [|done].
  destruct (call_service_body_returns _ _ _ _ _ _ _ _ _ E) as [res ->]. done.
Qed.

(** ** Registry gate *)

(** C5. [call_service] consults the registry first: for an unknown service
    name it returns a failed result saying the service was not found, for
    a service whose status is Unhealthy it returns a failed result at once;
    in both cases no request is issued and the registry is unchanged. *)
Theorem call_service_consults_registry sn tn params t services envs :
  (services !! sn = None ∨
   ∃ svc, services !! sn = Some svc ∧ status svc = UNHEALTHY) →
  ∃ msg,
    call_service str_json sn tn params t services envs
      = Some (services, Ok (failure (JStr msg)), [])
    ∧ msg = match services !! sn with
            | None => "Service '" +:+ sn +:+ "' not found"
            | Some _ => "Service '" +:+ sn +:+ "' is unhealthy"
            end.
Proof.
  intros H. rewrite call_service_unfold. unfold call_service_body.
  destruct H as [-> | (svc & -> & ->)]; simpl; eauto.
Qed.

(** ** Health bookkeeping after a response *)

Lemma try_block_readable svc tn params tv env response r log :
  post env = Ok response → body_readable response = true →
  try_block str_json svc tn params tv env = Some (r, log) →
  ∃ res, r = Ok res.
Proof.
  unfold try_block, body_readable. intros -> Hb H.
  destruct (http_status response =? 200).
  - destruct (json_body response) as [[]|]; try done. simpl in H.
    repeat match type of H with
    | context [match ?x with _ => _ end] => destruct x eqn:?
    | context [if ?b then _ else _] => destruct b eqn:?
    end; simplify_eq; eauto.
  - destruct (text_body response); [|done]. simplify_eq. eauto.
Qed.

(** C10 (amended). When [call_service] gets an answer of the execute
    endpoint whose body it can read (a JSON object for a 200, text for any
    other status), it sets the service Healthy, resets the error count to 0
    and records the latency, and returns a result, failed or not. *)
Theorem readable_response_resets_health sn tn params t services envs
    svc response s' r log :
  services !! sn = Some svc →
  status svc ≠ UNHEALTHY →
  post (envs 0%nat) = Ok response →
  body_readable response = true →
  call_service str_json sn tn params t services envs = Some (s', r, log) →
  ∃ res after,
    r = Ok res ∧ s' = <[sn := after]> services
    ∧ status after = HEALTHY ∧ error_count after = 0
    ∧ response_time after = t_update (envs 0%nat) - t_start (envs 0%nat)
    ∧ (http_status response ≠ 200 → success res = false).
Proof.
  intros Hsvc Hst Hpost Hbody. rewrite call_service_unfold.
  unfold call_service_body. rewrite Hsvc.
  destruct (ServiceStatus_eqb (status svc) UNHEALTHY) eqn:E.
  { destruct (status svc); done. }
  destruct (try_block _ _ _ _ _ _) as [[r0 log0]|] eqn:Et; [|done].
  destruct (try_block_readable _ _ _ _ _ _ _ _ Hpost Hbody Et) as [res ->].
  intros [= <- <- <-]. do 2 eexists. repeat split; try reflexivity.
  intros Hne. unfold try_block in Et. rewrite Hpost in Et.
  destruct (http_status response =? 200) eqn:E2; [lia|].
  destruct (text_body response); simplify_eq. done.
Qed.

(** ** The two except clauses *)

(** A request that times out adds one to the error count and leaves the
    status alone, whatever the threshold. *)
Lemma timeout_leaves_status sn tn params t services envs svc m :
  services !! sn = Some svc →
  status svc ≠ UNHEALTHY →
  post (envs 0%nat) = Raise (TimeoutError m) →
  ∃ res log,
    call_service str_json sn tn params t services envs
      = Some (<[sn := set_error_count (error_count svc + 1) svc]> services,
              Ok res, log)
    ∧ success res = false.
Proof.
  intros Hsvc Hst Hpost. rewrite call_service_unfold.
  unfold call_service_body, try_block. rewrite Hsvc, Hpost.
  destruct (ServiceStatus_eqb (status svc) UNHEALTHY) eqn:E.
  { destruct (status svc); done. }
  eauto.
Qed.

(** Any other exception also tests the threshold. *)
Lemma other_error_opens_breaker sn tn params t services envs svc m :
  services !! sn = Some svc →
  status svc ≠ UNHEALTHY →
  post (envs 0%nat) = Raise (OtherError m) →
  max_errors svc ≤ error_count svc + 1 →
  ∃ res log,
    call_service str_json sn tn params t services envs
      = Some (<[sn := set_status UNHEALTHY
                         (set_error_count (error_count svc + 1) svc)]> services,
              Ok res, log)
    ∧ success res = false.
Proof.
  intros Hsvc Hst Hpost Hmax. rewrite call_service_unfold.
  unfold call_service_body, try_block. rewrite Hsvc, Hpost.
  destruct (ServiceStatus_eqb (status svc) UNHEALTHY) eqn:E.
  { destruct (status svc); done. }
  simpl. destruct (max_errors svc <=? error_count svc + 1) eqn:E2; [eauto|lia].
Qed.

(** ** The immediate path *)

(** A 200 answer whose status is not "running" is a success whose [data]
    is the whole decoded answer. *)
Lemma immediate_result_is_whole_answer sn tn params t services envs
    svc response kvs :
  services !! sn = Some svc →
  status svc ≠ UNHEALTHY →
  post (envs 0%nat) = Ok response →
  http_status response = 200 →
  json_body response = Ok (JObj kvs) →
  is_str (default JNull (assoc "status" kvs)) "running" = false →
  ∃ s' res log,
    call_service str_json sn tn params t services envs = Some (s', Ok res, log)
    ∧ success res = true ∧ data res = JObj kvs
    ∧ execution_id res = default JNull (assoc "execution_id" kvs).
Proof.
  intros Hsvc Hst Hpost H200 Hjson Hrun. rewrite call_service_unfold.
  unfold call_service_body, try_block. rewrite Hsvc, Hpost, H200, Hjson.
  destruct (ServiceStatus_eqb (status svc) UNHEALTHY) eqn:E.
  { destruct (status svc); done. }
  simpl. rewrite Hrun. eauto 10.
Qed.

(** ** Polling *)

Lemma poll_loop_total svc x timeout start script :
  existsb (decisive timeout start) script = true →
  is_Some (poll_loop str_json svc x timeout start script).
Proof.
  induction script as [|tk rest IH]; simpl; [done|].
  unfold decisive at 1, keeps_waiting.
  destruct (timeout <? tick_now tk - start); [eauto|]. simpl.
  destruct (tick_reply tk) as [response|]; simpl; [|eauto].
  destruct (http_status response =? 200); simpl; [|eauto].
  destruct (json_body response) as [[]|]; simpl; eauto.
  destruct (is_str _ "completed"); simpl; [eauto|].
  destruct (is_str _ "failed"); simpl; [eauto|].
  destruct (is_str _ "cancelled"); simpl; [eauto|].
  intros H. destruct (IH H) as [[r log] ->]. eauto.
Qed.

Lemma try_block_total svc tn params tv env :
  existsb (decisive tv (w_start env)) (ticks env) = true →
  is_Some (try_block str_json svc tn params tv env).
Proof.
  intros H. unfold try_block, _wait_for_completion.
  destruct (post env) as [response|]; [|eauto].
  destruct (http_status response =? 200).
  - destruct (json_body response) as [rd|]; [|eauto].
    destruct (dict_get "status" rd); [|eauto].
    destruct (is_str _ _); [|destruct (dict_get "execution_id" rd); eauto].
    destruct (dict_get "execution_id" rd) as [x|]; [|eauto].
    destruct (truthy x); [|eauto].
    destruct (poll_loop_total svc x _ _ _ H) as [[r log] ->]. eauto.
  - destruct (text_body response); eauto.
Qed.

(** With a script that contains a decisive polling iteration, the call
    produces a result. *)
Lemma call_service_total sn tn params t services envs :
  (∀ svc, services !! sn = Some svc →
     existsb (decisive (timeout_or t svc) (w_start (envs 0%nat)))
             (ticks (envs 0%nat)) = true) →
  is_Some (call_service str_json sn tn params t services envs).
Proof.
  intros H. rewrite call_service_unfold. unfold call_service_body.
  destruct (services !! sn) as [svc|]; [|eauto].
  destruct (ServiceStatus_eqb _ _); [eauto|].
  destruct (try_block_total svc tn params _ _ (H svc eq_refl)) as [[r log] ->].
  destruct r as [res|[]]; eauto.
Qed.

(** Polls made before the deadline and answered "keep waiting" add one
    GET each and leave the outcome to the rest of the script. *)
Lemma poll_loop_waits svc x timeout start waiting rest :
  Forall (waits timeout start) waiting →
  poll_loop str_json svc x timeout start (waiting ++ rest)
  = match poll_loop str_json svc x timeout start rest with
    | Some (r, log) =>
        Some (r, replicate (length waiting)
                   (GET (url svc +:+ "/status/" +:+ str_json x) None) ++ log)%list
    | None => None
    end.
Proof.
  induction 1 as [|tk waiting [Hnow Hkeep] _ IH]; simpl.
  - by destruct (poll_loop _ _ _ _ _ rest) as [[? ?]|].
  - destruct (timeout <? tick_now tk - start) eqn:E; [lia|].
    unfold keeps_waiting in Hkeep.
    destruct (tick_reply tk) as [response|]; [|done]. simpl.
    destruct (http_status response =? 200); [|done]. simpl in *.
    destruct (json_body response) as [[| | | | |kvs]|]; try done. simpl.
    destruct (is_str _ "completed"); [done|].
    destruct (is_str _ "failed"); [done|].
    destruct (is_str _ "cancelled"); [done|]. simpl.
    rewrite IH. by destruct (poll_loop _ _ _ _ _ rest) as [[? ?]|].
Qed.

Lemma count_GET_polls u b tv q n :
  is_POST q = false →
  count_GET (POST u b tv :: replicate n q) = n.
Proof.
  intros Hq. unfold count_GET. rewrite filter_cons_False by done.
  induction n as [|n IH]; [done|]. simpl.
  rewrite filter_cons_True by done. simpl. by rewrite IH.
Qed.

(** C7 (amended). The polling loop has no retry budget: after any number
    of polls that were answered "keep waiting", the first failed poll
    (transport error or a status answer other than 200) fails the call at
    once; the call reports that failure, and no further poll is issued,
    whatever the later polls would have answered. *)
Theorem first_failed_poll_fails_call sn tn params t services envs
    svc response kvs x waiting tk rest :
  services !! sn = Some svc →
  status svc ≠ UNHEALTHY →
  post (envs 0%nat) = Ok response →
  http_status response = 200 →
  json_body response = Ok (JObj kvs) →
  assoc "status" kvs = Some (JStr "running") →
  assoc "execution_id" kvs = Some x → truthy x = true →
  ticks (envs 0%nat) = (waiting ++ tk :: rest)%list →
  Forall (waits (timeout_or t svc) (w_start (envs 0%nat))) waiting →
  tick_now tk - w_start (envs 0%nat) ≤ timeout_or t svc →
  poll_failed (tick_reply tk) = true →
  ∃ s' res log,
    call_service str_json sn tn params t services envs = Some (s', Ok res, log)
    ∧ success res = false
    ∧ error res = match tick_reply tk with
                  | Ok r => JStr ("Failed to get status: HTTP " +:+ pretty (http_status r))
                  | Raise e => JStr ("Status check failed: " +:+ str_exn e)
                  end
    ∧ log = POST (url svc +:+ "/execute") (request_data tn params) (timeout_or t svc)
            :: replicate (S (length waiting))
                 (GET (url svc +:+ "/status/" +:+ str_json x) None)
    ∧ count_GET log = S (length waiting).
Proof.
  intros Hsvc Hst Hpost H200 Hjson Hrun Hid Htr Hticks Hwait Hnow Hfail.
  rewrite call_service_unfold. unfold call_service_body. rewrite Hsvc.
  destruct (ServiceStatus_eqb (status svc) UNHEALTHY) eqn:E.
  { destruct (status svc); done. }
  unfold try_block, _wait_for_completion.
  rewrite Hpost, H200, Hjson. simpl. rewrite Hrun, Hid. simpl. rewrite Htr.
  rewrite Hticks, (poll_loop_waits _ _ _ _ _ _ Hwait). cbn [poll_loop].
  destruct (timeout_or t svc <? tick_now tk - w_start (envs 0%nat)) eqn:E2; [lia|].
  unfold poll_failed in Hfail.
  destruct (tick_reply tk) as [r2|e]; simpl.
  - destruct (http_status r2 =? 200); [done|]. simpl.
    rewrite <- replicate_cons_app.
    do 3 eexists. split; [reflexivity|]. split; [done|]. split; [done|].
    split; [done|].
    by apply (count_GET_polls _ _ _ (GET _ _) (S (length waiting))).
  - rewrite <- replicate_cons_app.
    do 3 eexists. split; [reflexivity|]. split; [done|]. split; [done|].
    split; [done|].
    by apply (count_GET_polls _ _ _ (GET _ _) (S (length waiting))).
Qed.

(** ** The probe *)

(** C3 (amended). For a registered service, a probe answered with 200 sets
    the status Healthy and any other outcome sets it Unhealthy at once; the
    error count and the threshold are left as they were, and the probe
    returns its verdict without raising. *)
Theorem health_check_sets_status sn services svc probe now :
  services !! sn = Some svc →
  ∃ after,
    health_check sn services probe now
      = (<[sn := after]> services,
         Ok (match probe with Ok r => http_status r =? 200 | Raise _ => false end),
         [GET (health_check_url svc) (Some 10)])
    ∧ status after = (match probe with
                      | Ok r => if http_status r =? 200 then HEALTHY else UNHEALTHY
                      | Raise _ => UNHEALTHY
                      end)
    ∧ error_count after = error_count svc
    ∧ max_errors after = max_errors svc
    ∧ last_check after = now.
Proof.
  intros Hsvc. unfold health_check. rewrite Hsvc.
  destruct probe as [r|e]; eexists; (split; [reflexivity|]); simpl; auto.
Qed.

End Framework.

(** ** The properties at concrete inputs *)

Definition post_a : Request :=
  POST "http://localhost:8001/execute" (request_data "t" (JObj [])) 30.

Lemma call_service_consults_registry_witness :
  ∃ msg,
    call_service str_sample "ghost" "t" (JObj []) None services_a env_immediate
      = Some (services_a, Ok (failure (JStr msg)), [])
    ∧ msg = match services_a !! "ghost" with
            | None => "Service '" +:+ "ghost" +:+ "' not found"
            | Some _ => "Service '" +:+ "ghost" +:+ "' is unhealthy"
            end.
Proof.
  apply (call_service_consults_registry str_sample "ghost" "t" (JObj []) None
           services_a env_immediate).
  left. reflexivity.
Defined.

(** C10, refuted as stated: a 200 answer whose body is the JSON array []
    is an HTTP response of the execute endpoint, yet the service is not set
    Healthy and its error count goes up instead of being reset. *)
Lemma unreadable_response_counts_as_error :
  ∃ s' res log after,
    call_service str_sample "a" "t" (JObj []) None services_a env_array
      = Some (s', Ok res, log)
    ∧ log = [post_a] ∧ s' !! "a" = Some after
    ∧ status after ≠ HEALTHY ∧ error_count after = 1 ∧ response_time after = 0.
Proof.
  do 4 eexists. split; [vm_compute; reflexivity|].
  split; [reflexivity|]. split; [vm_compute; reflexivity|]. simpl.
  repeat split; discriminate.
Qed.

Lemma readable_response_resets_health_witness :
  ∃ res after,
    Ok (stamp 6 "a" "t" (failure (JStr "HTTP 404: no such tool"))) = Ok res
    ∧ <["a" := set_status HEALTHY
                 (set_error_count 0 (set_response_time 5 svc_a))]> services_a
      = <["a" := after]> services_a
    ∧ status after = HEALTHY ∧ error_count after = 0
    ∧ response_time after = t_update (env_404 0%nat) - t_start (env_404 0%nat)
    ∧ (http_status (reply_text 404 "no such tool") ≠ 200 → success res = false).
Proof.
  apply (readable_response_resets_health str_sample "a" "t" (JObj []) None
           services_a env_404 svc_a (reply_text 404 "no such tool") _ _ [post_a]).
  - reflexivity.
  - discriminate.
  - reflexivity.
  - reflexivity.
  - vm_compute. reflexivity.
Defined.

(** C7, refuted as stated: one poll answered 502, with the next poll ready
    to report completion, fails the whole call; a single GET was issued. *)
Lemma single_failed_poll_fails_call :
  ∃ s' res log,
    call_service str_sample "a" "t" (JObj []) None services_a env_poll_502
      = Some (s', Ok res, log)
    ∧ success res = false
    ∧ error res = JStr "Failed to get status: HTTP 502"
    ∧ count_GET log = 1%nat.
Proof.
  do 3 eexists. split; [vm_compute; reflexivity|]. repeat split.
Qed.

Lemma first_failed_poll_fails_call_witness :
  ∃ s' res log,
    call_service str_sample "a" "t" (JObj []) None services_a env_poll_disconnected
      = Some (s', Ok res, log)
    ∧ success res = false
    ∧ error res = JStr "Status check failed: Server disconnected"
    ∧ log = [post_a; GET "http://localhost:8001/status/x" None;
             GET "http://localhost:8001/status/x" None]
    ∧ count_GET log = 2%nat.
Proof.
  eapply (first_failed_poll_fails_call str_sample "a" "t" (JObj []) None
            services_a env_poll_disconnected svc_a (reply 200 (running_as "x") "")
            _ (JStr "x")
            [ {| tick_now := 102; tick_reply := Ok (reply 200 (running_as "x") "") |} ]
            {| tick_now := 104; tick_reply := Raise (OtherError "Server disconnected") |}).
  - reflexivity.
  - discriminate.
  - reflexivity.
  - reflexivity.
  - reflexivity.
  - reflexivity.
  - reflexivity.
  - reflexivity.
  - reflexivity.
  - repeat constructor. vm_compute. discriminate.
  - vm_compute. discriminate.
  - reflexivity.
Defined.

(** C3, refuted as stated: a failed probe of a fresh service (count 0,
    threshold 3) leaves the count at 0 and sets Unhealthy, not Degraded;
    a successful probe of a service with count 2 leaves the count at 2. *)
Lemma probe_spec_refuted :
  (∃ after,
     (health_check "a" services_a (Ok (reply_text 503 "down")) 7).1.1 !! "a"
       = Some after
     ∧ error_count after = 0 ∧ status after = UNHEALTHY
     ∧ ¬ probe_spec svc_a after false)
  ∧ (∃ after,
     (health_check "a" {[ "a" := set_error_count 2 svc_a ]}
        (Ok (reply 200 (JObj []) "{}")) 7).1.1 !! "a" = Some after
     ∧ error_count after = 2
     ∧ ¬ probe_spec (set_error_count 2 svc_a) after true).
Proof.
  split; eexists; (split; [vm_compute; reflexivity|]); simpl.
  - repeat split. unfold probe_spec. simpl. intros [? ?]. discriminate.
  - repeat split. unfold probe_spec. simpl. intros [? ?]. discriminate.
Qed.

Lemma health_check_sets_status_witness :
  ∃ after,
    health_check "a" services_a (Raise (TimeoutError "")) 7
      = (<["a" := after]> services_a, Ok false,
         [GET (health_check_url svc_a) (Some 10)])
    ∧ status after = UNHEALTHY
    ∧ error_count after = error_count svc_a
    ∧ max_errors after = max_errors svc_a
    ∧ last_check after = 7.
Proof.
  apply (health_check_sets_status "a" services_a svc_a (Raise (TimeoutError "")) 7).
  reflexivity.
Defined.

(** C2, evaluated on the code: for one remote outcome (execution "x"
    completed with the same payload) the immediate path hands the caller
    the whole answer of the execute endpoint as [data], the polling path
    only its [result] entry; and an execution reported as failed is a
    success on the immediate path and a failure on the polling path. *)
Theorem immediate_and_polled_results_differ :
  (∃ s1 r1 log1 s2 r2 log2,
     call_service str_sample "a" "t" (JObj []) None services_a env_immediate
       = Some (s1, Ok r1, log1)
     ∧ call_service str_sample "a" "t" (JObj []) None services_a env_polled
       = Some (s2, Ok r2, log2)
     ∧ success r1 = true ∧ success r2 = true
     ∧ data r1 = completed_now "x" payload ∧ data r2 = payload
     ∧ data r1 ≠ data r2)
  ∧ (∃ s1 r1 log1 s2 r2 log2,
     call_service str_sample "a" "t" (JObj []) None services_a env_immediate_failed
       = Some (s1, Ok r1, log1)
     ∧ call_service str_sample "a" "t" (JObj []) None services_a env_polled_failed
       = Some (s2, Ok r2, log2)
     ∧ success r1 = true ∧ success r2 = false).
Proof.
  split; do 6 eexists;
    (split; [vm_compute; reflexivity|]); (split; [vm_compute; reflexivity|]);
    simpl; repeat split; discriminate.
Qed.

(** C4, evaluated on the code: three calls that time out bring the error
    count of a Healthy service to its threshold 3 while its status stays
    Healthy, and the fourth call is sent to the network; three calls that
    fail with any other exception do open the breaker. *)
Theorem timeouts_reach_threshold_with_breaker_closed :
  (∃ s3 log3 after s4 r4,
     call_repeatedly str_sample 3 "a" "t" (JObj []) None services_healthy env_timeout
       = Some (s3, log3)
     ∧ s3 !! "a" = Some after
     ∧ error_count after = max_errors after ∧ status after = HEALTHY
     ∧ ¬ breaker_open_at_threshold after
     ∧ call_service str_sample "a" "t" (JObj []) None s3 env_timeout
       = Some (s4, r4, [post_a]))
  ∧ (∃ s3 log3 after r4,
     call_repeatedly str_sample 3 "a" "t" (JObj []) None services_healthy env_refused
       = Some (s3, log3)
     ∧ s3 !! "a" = Some after ∧ status after = UNHEALTHY
     ∧ call_service str_sample "a" "t" (JObj []) None s3 env_refused
       = Some (s3, r4, [])).
Proof.
  split.
  - do 5 eexists. split; [vm_compute; reflexivity|].
    split; [vm_compute; reflexivity|]. simpl.
    split; [reflexivity|]. split; [reflexivity|]. split.
    + unfold breaker_open_at_threshold. simpl. intros H.
      specialize (H ltac:(lia)). discriminate.
    + vm_compute. reflexivity.
  - do 4 eexists. split; [vm_compute; reflexivity|].
    split; [vm_compute; reflexivity|]. simpl. split; [reflexivity|].
    vm_compute. reflexivity.
Qed.

End ClientProps.

(** * Properties of the workflow engine *)
Module EngineProps.
Import Engine.

Lemma count_le_length {A} (p : A → bool) (l : list A) :
  (count p l ≤ length l)%nat.
Proof. induction l as [|x l IH]; simpl; [lia|]. destruct (p x); lia. Qed.

Lemma count_full {A} (p : A → bool) (l : list A) :
  (length l ≤ count p l)%nat → Forall (λ x, p x = true) l.
Proof.
  induction l as [|x l IH]; simpl; intros H; [constructor|].
  pose proof (count_le_length p l).
  destruct (p x) eqn:E; [|lia]. constructor; [done|]. apply IH. lia.
Qed.

(** Replacing an uncounted element by a counted one, under a predicate
    that only grew, raises the count. *)
Lemma count_insert {A} (p q : A → bool) (l : list A) i x y :
  l !! i = Some x → p x = false → q y = true →
  (∀ z, p z = true → q z = true) →
  (S (count p l) ≤ count q (<[i := y]> l))%nat.
Proof.
  intros Hx Hpx Hqy Hmono. revert i Hx.
  induction l as [|z l IH]; intros [|i] Hx; simplify_eq/=.
  - rewrite Hpx, Hqy. simpl.
    assert (count p l ≤ count q l)%nat; [|lia].
    clear -Hmono. induction l as [|z l IH]; simpl; [lia|].
    destruct (p z) eqn:E; [rewrite (Hmono _ E); lia|]. destruct (q z); lia.
  - specialize (IH _ Hx).
    destruct (p z) eqn:E; [rewrite (Hmono _ E); lia|]. destruct (q z); lia.
Qed.

Section WithHandlers.

Variable self : Handlers.

Lemma _execute_step_spec i step run run1 r :
  _execute_step self i step run = (run1, r) →
  ∃ step2,
    steps (instance run1) = <[i := step2]> (steps (instance run))
    ∧ inst_status (instance run1) = inst_status (instance run)
    ∧ completed_steps run1 = completed_steps run
    ∧ id step2 = id step
    ∧ trace run1
      = (trace run
         ++ [{| tr_step := i; tr_from := status step; tr_to := StepStatus.RUNNING |}]
         ++ [{| tr_step := i; tr_from := StepStatus.RUNNING; tr_to := status step2 |}])%list
    ∧ match r with
      | Ok _ => status step2 = StepStatus.COMPLETED
      | Raise e => status step2 = StepStatus.FAILED ∧ error step2 = Some (str_exn e)
      end.
Proof.
  unfold _execute_step. intros H.
  destruct (dispatch self _ _) as [res|e]; simplify_eq/=;
    eexists; rewrite list_insert_insert_eq, <- app_assoc; simpl;
    repeat split; reflexivity.
Qed.

Lemma Common_ext inst0 run run' :
  steps (instance run') = steps (instance run) → trace run' = trace run →
  Common inst0 run → Common inst0 run'.
Proof.
  intros Hs Ht [Hlen Hunt Hfw]. constructor.
  - by rewrite Hs.
  - intros j Hj. rewrite Hs. apply Hunt. intros t' Ht'. apply Hj. by rewrite Ht.
  - intros Hall. rewrite Ht. auto.
Qed.

Lemma recorded_mono (done : gset string) x z :
  recorded done z = true → recorded (done ∪ {[x]}) z = true.
Proof.
  unfold recorded. rewrite !andb_true_iff, !bool_decide_eq_true.
  intros [? ?]. split; [set_solver | done].
Qed.

(** A step that ran to completion: the invariant holds again once its id
    is added to [completed_steps]. *)
Lemma step_completed inst0 i step run run1 u :
  Inv inst0 run →
  steps (instance run) !! i = Some step →
  id step ∉ completed_steps run →
  _execute_step self i step run = (run1, Ok u) →
  Inv inst0 {| instance := set_current_step (Some (id step)) (instance run1);
               completed_steps := completed_steps run1 ∪ {[ id step ]};
               trace := trace run1 |}
  ∧ ∃ step2, steps (instance run1) !! i = Some step2
             ∧ status step2 = StepStatus.COMPLETED.
Proof.
  intros [[Hlen Hunt Hfw] Hclean Hcount Hstatus Hpend] Hi Hnew He.
  destruct (_execute_step_spec _ _ _ _ _ He)
    as (step2 & Hsteps & Hst & Hdone & Hid & Htr & Hs2).
  pose proof (lookup_lt_Some _ _ _ Hi) as Hlt.
  split; [constructor; [constructor|..]|]; simpl.
  - by rewrite Hsteps, length_insert.
  - intros j Hj. simpl in *. rewrite Hsteps.
    assert (j ≠ i) as Hne.
    { intros ->.
      apply (Hj {| tr_step := i; tr_from := status step;
                   tr_to := StepStatus.RUNNING |}); [|reflexivity].
      rewrite Htr. apply elem_of_app. right. apply list_elem_of_here. }
    rewrite list_lookup_insert_ne by done. apply Hunt.
    intros t' Ht'. apply Hj. rewrite Htr. apply elem_of_app. by left.
  - intros Hall. unfold forward_trace. rewrite Htr.
    apply Forall_app. split; [by apply Hfw|].
    destruct (Hpend Hall _ _ Hi) as [Hp|?]; [|done].
    repeat constructor; simpl; [by rewrite Hp | by rewrite Hs2].
  - unfold clean. rewrite Htr. apply Forall_app. split; [done|].
    repeat constructor; simpl; [done | by rewrite Hs2].
  - rewrite Hsteps, Hdone.
    rewrite size_union by (by apply disjoint_singleton_r). rewrite size_singleton.
    pose proof (count_insert (recorded (completed_steps run))
                  (recorded (completed_steps run ∪ {[id step]}))
                  (steps (instance run)) i step step2 Hi) as Hci.
    assert (Hyp1 : recorded (completed_steps run) step = false).
    { unfold recorded. rewrite bool_decide_eq_false_2 by done. done. }
    assert (Hyp2 : recorded (completed_steps run ∪ {[id step]}) step2 = true).
    { unfold recorded. rewrite Hid, Hs2.
      rewrite bool_decide_eq_true_2; [done|]. by apply elem_of_union_r, elem_of_singleton. }
    specialize (Hci Hyp1 Hyp2 (recorded_mono _ _)). lia.
  - by rewrite Hst.
  - intros Hall k s Hk. simpl in *. rewrite Hsteps in Hk. rewrite Hdone.
    destruct (decide (k = i)) as [->|Hne].
    + rewrite list_lookup_insert_eq in Hk by done. simplify_eq.
      right. rewrite Hid. by apply elem_of_union_r, elem_of_singleton.
    + rewrite list_lookup_insert_ne in Hk by done.
      destruct (Hpend Hall _ _ Hk); [by left | right; by apply elem_of_union_l].
  - exists step2. rewrite Hsteps. split; [|done].
    by apply list_lookup_insert_eq.
Qed.

(** A step whose handler raised. *)
Lemma step_failed inst0 i step run run1 e :
  Inv inst0 run →
  steps (instance run) !! i = Some step →
  id step ∉ completed_steps run →
  _execute_step self i step run = (run1, Raise e) →
  Post inst0 run1 (Raised e).
Proof.
  intros [[Hlen Hunt Hfw] Hclean Hcount Hstatus Hpend] Hi Hnew He.
  destruct (_execute_step_spec _ _ _ _ _ He)
    as (step2 & Hsteps & Hst & Hdone & Hid & Htr & Hs2 & Herr).
  pose proof (lookup_lt_Some _ _ _ Hi) as Hlt.
  split; [constructor|split; [by rewrite Hst|]].
  - by rewrite Hsteps, length_insert.
  - intros j Hj. rewrite Hsteps.
    assert (j ≠ i) as Hne.
    { intros ->.
      apply (Hj {| tr_step := i; tr_from := status step;
                   tr_to := StepStatus.RUNNING |}); [|reflexivity].
      rewrite Htr. apply elem_of_app. right. apply list_elem_of_here. }
    rewrite list_lookup_insert_ne by done. apply Hunt.
    intros t' Ht'. apply Hj. rewrite Htr. apply elem_of_app. by left.
  - intros Hall. unfold forward_trace. rewrite Htr.
    apply Forall_app. split; [by apply Hfw|].
    destruct (Hpend Hall _ _ Hi) as [Hp|?]; [|done].
    repeat constructor; simpl; [by rewrite Hp | by rewrite Hs2].
  - eexists (trace run ++ [_])%list, i, step2. rewrite Htr, Hs2, app_assoc.
    split; [reflexivity|]. split.
    + apply Forall_app. split; [done|]. repeat constructor. done.
    + rewrite Hsteps. split; [by apply list_lookup_insert_eq | done].
Qed.

Lemma for_steps_post inst0 positions run run' fl :
  Inv inst0 run →
  for_steps self positions run = (run', fl) →
  Post inst0 run' fl.
Proof.
  revert run. induction positions as [|i rest IH]; intros run HInv H.
  - cbn [for_steps] in H. by simplify_eq.
  - cbn [for_steps] in H.
    destruct (steps (instance run) !! i) as [step|] eqn:Hi; [|eauto].
    destruct (bool_decide (id step ∈ completed_steps run)) eqn:Hin; [eauto|].
    apply bool_decide_eq_false in Hin.
    destruct (deps_satisfied step (completed_steps run)); [|eauto].
    destruct (_execute_step self i step run) as [run1 [u|e]] eqn:He.
    + destruct (step_completed _ _ _ _ _ _ HInv Hi Hin He)
        as (HInv2 & step2 & Hi2 & Hs2).
      cbn [instance set_current_step steps] in H. rewrite Hi2, Hs2 in H.
      cbn [StepStatus.eqb] in H. eauto.
    + simplify_eq. by eapply step_failed.
Qed.

Lemma while_loop_post inst0 fuel run run' fl :
  Inv inst0 run →
  while_loop self fuel run = Some (run', fl) →
  Post inst0 run' fl
  ∧ (fl = Normal →
     (length (steps (instance run')) ≤ size (completed_steps run'))%nat).
Proof.
  revert run. induction fuel as [|fuel IH]; intros run HInv H; [done|].
  cbn [while_loop] in H.
  destruct (size (completed_steps run) <? length (steps (instance run)))%nat eqn:E.
  - destruct (for_steps self _ run) as [run1 fl1] eqn:Hf.
    pose proof (for_steps_post _ _ _ _ _ HInv Hf) as HP.
    destruct fl1 as [| |e].
    + destruct (size (completed_steps run1) =? 0)%nat; [|eauto].
      simplify_eq. split; [|done].
      destruct HP as [HC Hcl _ _ _]. split; [|done].
      by eapply Common_ext; [| |exact HC].
    + by simplify_eq.
    + by simplify_eq.
  - simplify_eq. split; [done|]. intros _.
    apply Nat.ltb_ge in E. done.
Qed.

Lemma Inv_init inst :
  Inv inst {| instance := set_inst_status WorkflowStatus.RUNNING inst;
              completed_steps := ∅; trace := [] |}.
Proof.
  constructor; [constructor|..]; simpl.
  - done.
  - intros j _. done.
  - intros _. constructor.
  - constructor.
  - apply Nat.le_0_l.
  - done.
  - intros Hall i s Hi. left.
    unfold all_pending in Hall. rewrite Forall_lookup in Hall. eauto.
Qed.

(** How [execute_workflow] ends, by the control flow its loop left with. *)
Lemma execute_workflow_post fuel iid insts inst insts' r tr :
  insts !! iid = Some inst →
  execute_workflow self fuel iid insts = Some (insts', r, tr) →
  ∃ run fl,
    Post inst run fl ∧ tr = trace run
    ∧ (fl = Normal →
       (length (steps (instance run)) ≤ size (completed_steps run))%nat)
    ∧ match fl with
      | Normal =>
          r = Ok () ∧
          insts' = <[iid := set_inst_status WorkflowStatus.COMPLETED (instance run)]> insts
      | Returned => r = Ok () ∧ insts' = <[iid := instance run]> insts
      | Raised e =>
          r = Raise e ∧
          insts' = <[iid := set_inst_status WorkflowStatus.FAILED (instance run)]> insts
      end.
Proof.
  intros Hi H. unfold execute_workflow in H. rewrite Hi in H.
  destruct (while_loop self fuel _) as [[run fl]|] eqn:Hw; [|done].
  destruct (while_loop_post _ _ _ _ _ (Inv_init inst) Hw) as [HP Hn].
  exists run, fl. destruct fl; simplify_eq; done.
Qed.

Lemma clean_last pre (x : Transition) k t :
  clean pre → (pre ++ [x])%list !! k = Some t →
  tr_to t = StepStatus.FAILED → S k = length (pre ++ [x])%list.
Proof.
  intros Hcl Hk Hf. rewrite length_app. simpl.
  destruct (decide (k < length pre)%nat) as [Hlt|Hge].
  - rewrite lookup_app_l in Hk by done.
    unfold clean in Hcl. rewrite Forall_lookup in Hcl.
    by destruct (Hcl _ _ Hk).
  - apply lookup_lt_Some in Hk. rewrite length_app in Hk. simpl in Hk. lia.
Qed.

(** C8. Whatever the instance and the handlers: an assignment of Failed to
    a step is the last status assignment of the run (nothing is dispatched
    after it) and leaves the instance Failed; a step to which the run
    assigned no status is as it was before, so a Pending step that was not
    started is still Pending; and when the instance ends Completed every
    one of its steps is Completed. *)
Theorem fail_fast_and_completion fuel iid insts inst insts' r tr :
  insts !! iid = Some inst →
  execute_workflow self fuel iid insts = Some (insts', r, tr) →
  ∃ inst',
    insts' !! iid = Some inst'
    ∧ length (steps inst') = length (steps inst)
    ∧ (∀ k t, tr !! k = Some t → tr_to t = StepStatus.FAILED →
         S k = length tr ∧ inst_status inst' = WorkflowStatus.FAILED)
    ∧ (∀ j, (∀ t, t ∈ tr → tr_step t ≠ j) → steps inst' !! j = steps inst !! j)
    ∧ (inst_status inst' = WorkflowStatus.COMPLETED →
       Forall (λ s, status s = StepStatus.COMPLETED) (steps inst')).
Proof.
  intros Hi H.
  destruct (execute_workflow_post _ _ _ _ _ _ _ Hi H)
    as (run & fl & HP & -> & Hn & Hfl).
  destruct fl as [| |e]; simpl in HP.
  - destruct Hfl as [-> ->]. destruct HP as [[Hlen Hunt _] Hcl Hcount _ _].
    eexists. split; [apply lookup_insert_eq|]. simpl.
    split; [done|]. split; [|split; [done|]].
    + intros k t Hk Hf. unfold clean in Hcl. rewrite Forall_lookup in Hcl.
      by destruct (Hcl _ _ Hk).
    + intros _. specialize (Hn eq_refl).
      assert (Hfull : Forall (λ s, recorded (completed_steps run) s = true)
                        (steps (instance run))).
      { apply count_full. lia. }
      eapply Forall_impl; [exact Hfull|]. intros s Hs. unfold recorded in Hs.
      apply andb_true_iff in Hs as [_ Hs]. by destruct (status s).
  - destruct Hfl as [-> ->]. destruct HP as ([Hlen Hunt _] & Hcl & Hst).
    eexists. split; [apply lookup_insert_eq|].
    split; [done|]. split; [|split; [done|]].
    + intros k t Hk Hf. unfold clean in Hcl. rewrite Forall_lookup in Hcl.
      by destruct (Hcl _ _ Hk).
    + rewrite Hst. done.
  - destruct Hfl as [-> ->].
    destruct HP as ([Hlen Hunt _] & Hst & pre & i & s & Htr & Hcl & _).
    eexists. split; [apply lookup_insert_eq|]. simpl.
    split; [done|]. split; [|split; [done|done]].
    intros k t Hk Hf. split; [|done]. rewrite Htr in Hk |- *.
    by eapply clean_last.
Qed.


(** When [execute_workflow] raises: the instance id is unknown, or a step
    failed and the failure is recorded on the step and on the instance. *)
Lemma execute_workflow_raise fuel iid insts insts' e tr :
  execute_workflow self fuel iid insts = Some (insts', Raise e, tr) →
  (insts !! iid = None ∧ insts' = insts ∧ tr = [])
  ∨ (∃ inst' pre i s,
       insts' !! iid = Some inst'
       ∧ inst_status inst' = WorkflowStatus.FAILED
       ∧ tr = (pre ++ [{| tr_step := i; tr_from := StepStatus.RUNNING;
                          tr_to := StepStatus.FAILED |}])%list
       ∧ steps inst' !! i = Some s
       ∧ status s = StepStatus.FAILED ∧ error s = Some (str_exn e)).
Proof.
  intros H. destruct (insts !! iid) as [inst|] eqn:Hi.
  - right.
    destruct (execute_workflow_post _ _ _ _ _ _ _ Hi H)
      as (run & fl & HP & -> & _ & Hfl).
    destruct fl as [| |e']; try (by destruct Hfl).
    destruct Hfl as [[= ->] ->].
    destruct HP as (_ & _ & pre & i & s & Htr & _ & Hs & Hst & Herr).
    exists (set_inst_status WorkflowStatus.FAILED (instance run)), pre, i, s.
    split; [apply lookup_insert_eq|]. done.
  - left. unfold execute_workflow in H. rewrite Hi in H. by simplify_eq.
Qed.

Lemma execute_workflow_background_returns fuel iid insts insts' r tr :
  execute_workflow_background self fuel iid insts = Some (insts', r, tr) →
  r = Ok ().
Proof.
  unfold execute_workflow_background. intros H.
  destruct (execute_workflow self fuel iid insts) as [[[m [[]|e]] tr0]|]; [| |done].
  - by simplify_eq.
  - destruct (m !! iid); by simplify_eq.
Qed.

(** One more iteration of the loop after a scan that found something to do. *)
Lemma while_loop_next fuel run run1 :
  (size (completed_steps run) <? length (steps (instance run)))%nat = true →
  for_steps self (seq 0 (length (steps (instance run)))) run = (run1, Normal) →
  (size (completed_steps run1) =? 0)%nat = false →
  while_loop self (S fuel) run = while_loop self fuel run1.
Proof. intros H1 H2 H3. cbn [while_loop]. by rewrite H1, H2, H3. Qed.

(** A scan that changes nothing, with steps left and something already
    completed, is repeated for ever. *)
Lemma while_loop_stuck run :
  (size (completed_steps run) <? length (steps (instance run)))%nat = true →
  for_steps self (seq 0 (length (steps (instance run)))) run = (run, Normal) →
  (size (completed_steps run) =? 0)%nat = false →
  ∀ fuel, while_loop self fuel run = None.
Proof.
  intros H1 H2 H3 fuel. induction fuel as [|fuel IH]; [done|].
  by rewrite (while_loop_next _ _ _ H1 H2 H3).
Qed.

(** ** Exceptions of a run *)

Lemma execute_workflow_unknown fuel iid insts :
  insts !! iid = None →
  execute_workflow self fuel iid insts
  = Some (insts, Raise (OtherError ("工作流实例 " +:+ iid +:+ " 不存在")), []).
Proof. intros Hi. unfold execute_workflow. by rewrite Hi. Qed.

(** A handler that raises: [_execute_step] records the failure on the step
    and raises the same exception again. *)
Lemma _execute_step_reraises i step run e :
  dispatch self (set_step_status StepStatus.RUNNING step)
    (set_steps (<[i := set_step_status StepStatus.RUNNING step]>
                  (steps (instance run))) (instance run)) = Raise e →
  ∃ run1 step2,
    _execute_step self i step run = (run1, Raise e)
    ∧ steps (instance run1) = <[i := step2]> (steps (instance run))
    ∧ status step2 = StepStatus.FAILED
    ∧ error step2 = Some (str_exn e)
    ∧ trace run1
      = (trace run
         ++ [ {| tr_step := i; tr_from := status step; tr_to := StepStatus.RUNNING |};
              {| tr_step := i; tr_from := StepStatus.RUNNING;
                 tr_to := StepStatus.FAILED |} ])%list.
Proof.
  intros Hd. unfold _execute_step. rewrite Hd.
  do 2 eexists. split; [reflexivity|]. simpl.
  rewrite list_insert_insert_eq, <- app_assoc. done.
Qed.

(** A step that failed during a run: the run ended by raising. *)
Lemma failed_step_is_reraised fuel iid insts inst insts' r tr :
  insts !! iid = Some inst →
  execute_workflow self fuel iid insts = Some (insts', r, tr) →
  (∃ t, t ∈ tr ∧ tr_to t = StepStatus.FAILED) ↔ (∃ e, r = Raise e).
Proof.
  intros Hi H.
  destruct (execute_workflow_post _ _ _ _ _ _ _ Hi H)
    as (run & fl & HP & -> & _ & Hfl).
  destruct fl as [| |e]; simpl in HP.
  - destruct Hfl as [-> _]. destruct HP as [_ Hcl _ _ _]. split.
    + intros (t & Ht & Hf). unfold clean in Hcl. rewrite Forall_forall in Hcl.
      by destruct (Hcl _ Ht).
    + by intros [e ?].
  - destruct Hfl as [-> _]. destruct HP as (_ & Hcl & _). split.
    + intros (t & Ht & Hf). unfold clean in Hcl. rewrite Forall_forall in Hcl.
      by destruct (Hcl _ Ht).
    + by intros [e ?].
  - destruct Hfl as [-> _]. destruct HP as (_ & _ & pre & i & s & Htr & _).
    split; [eauto|]. intros _.
    exists {| tr_step := i; tr_from := StepStatus.RUNNING;
              tr_to := StepStatus.FAILED |}.
    split; [|reflexivity].
    rewrite Htr. apply elem_of_app. right. apply list_elem_of_here.
Qed.

(** The first step, free of dependencies, has a handler that raises: the
    run ends at once by raising that exception. *)
Lemma first_step_raises fuel iid insts inst step rest e :
  insts !! iid = Some inst →
  steps inst = step :: rest →
  dependencies step = [] →
  dispatch self (set_step_status StepStatus.RUNNING step)
    (set_steps (set_step_status StepStatus.RUNNING step :: rest)
       (set_inst_status WorkflowStatus.RUNNING inst)) = Raise e →
  ∃ inst',
    execute_workflow self (S fuel) iid insts
    = Some (<[iid := inst']> insts, Raise e,
            [ {| tr_step := 0; tr_from := status step; tr_to := StepStatus.RUNNING |};
              {| tr_step := 0; tr_from := StepStatus.RUNNING;
                 tr_to := StepStatus.FAILED |} ])
    ∧ inst_status inst' = WorkflowStatus.FAILED
    ∧ steps inst'
      = set_step_status StepStatus.FAILED
          (set_error (Some (str_exn e))
             (set_step_status StepStatus.RUNNING step)) :: rest.
Proof.
  intros Hi Hsteps Hdeps Hd. unfold execute_workflow. rewrite Hi.
  set (run0 := {| instance := set_inst_status WorkflowStatus.RUNNING inst;
                  completed_steps := ∅; trace := [] |}).
  assert (Hlt : (size (completed_steps run0) <? length (steps (instance run0)))%nat
                = true).
  { apply Nat.ltb_lt. unfold run0. cbn [completed_steps instance steps set_inst_status].
    rewrite size_empty, Hsteps. simpl. lia. }
  assert (H0 : steps (instance run0) !! 0%nat = Some step).
  { unfold run0. cbn [instance steps set_inst_status]. by rewrite Hsteps. }
  assert (Hlen : length (steps (instance run0)) = S (length rest)).
  { unfold run0. cbn [instance steps set_inst_status]. by rewrite Hsteps. }
  cbn [while_loop]. rewrite Hlt, Hlen. cbn [seq for_steps]. rewrite H0.
  rewrite bool_decide_eq_false_2 by apply not_elem_of_empty.
  unfold deps_satisfied. rewrite Hdeps. cbn [forallb].
  unfold _execute_step, run0. cbn [instance steps set_inst_status].
  rewrite Hsteps. cbn [insert list_insert]. rewrite Hd. simpl.
  eexists. split; [reflexivity|]. done.
Qed.

(** What the wrapper does with an exception of [execute_workflow]. *)
Lemma execute_workflow_background_catches fuel iid insts insts1 e tr :
  execute_workflow self fuel iid insts = Some (insts1, Raise e, tr) →
  ∃ insts',
    execute_workflow_background self fuel iid insts = Some (insts', Ok (), tr)
    ∧ ∀ inst1, insts1 !! iid = Some inst1 →
        ∃ inst', insts' !! iid = Some inst'
                 ∧ inst_status inst' = WorkflowStatus.FAILED.
Proof.
  intros H. unfold execute_workflow_background. rewrite H.
  destruct (insts1 !! iid) as [inst1|] eqn:E.
  - eexists. split; [reflexivity|]. intros ? [= <-].
    eexists. split; [apply lookup_insert_eq|done].
  - eexists. split; [reflexivity|]. done.
Qed.

End WithHandlers.

Lemma start_workflow_all_pending wn params iid defs insts insts' x :
  start_workflow wn params iid defs insts = (insts', Ok x) →
  ∃ inst, insts' !! iid = Some inst ∧ all_pending inst
          ∧ inst_status inst = WorkflowStatus.PENDING.
Proof.
  unfold start_workflow. destruct (defs !! wn) as [d|]; [|done].
  intros [= <- <-]. eexists. split; [apply lookup_insert_eq|]. split; [|done].
  unfold all_pending. simpl. apply Forall_forall. intros s Hs.
  apply list_elem_of_fmap in Hs as (s0 & -> & _). done.
Qed.

Lemma cancel_workflow_keeps_steps iid insts insts' b j inst :
  cancel_workflow iid insts = (insts', b) → insts !! j = Some inst →
  ∃ inst', insts' !! j = Some inst' ∧ steps inst' = steps inst.
Proof.
  unfold cancel_workflow. intros H Hj.
  destruct (insts !! iid) as [i0|] eqn:Hi; [|simplify_eq; eauto].
  destruct (inst_status i0); simplify_eq; eauto;
    (destruct (decide (iid = j)) as [->|Hne];
     [rewrite lookup_insert_eq; simplify_eq; eauto
     |rewrite lookup_insert_ne by done; eauto]).
Qed.

(** ** The claims about a run *)


(** C6 (amended). For exceptions that derive from [Exception], the ones
    the [except] clauses of the two files catch: none leaves [call_service],
    which returns a result whenever it ends.  [execute_workflow] does raise.
    For an unknown instance id it raises at once.  When the handler of a
    step raises, [_execute_step] sets the step Failed with the error text
    and raises the exception again; a run in which a step failed ends by
    raising, with that step and the instance Failed, and a run raises for
    no other reason; in particular a run whose first step has no
    dependencies and a handler that raises ends in its first iteration by
    raising that exception.  The wrapper [execute_workflow_background]
    turns an exception of [execute_workflow] into a normal return with the
    instance Failed, and lets nothing out. *)
Theorem exceptions_of_call_service_and_execute_workflow
    str_json sn tn params t services envs self fuel iid insts :
  (∀ s' r log,
     Client.call_service str_json sn tn params t services envs = Some (s', r, log) →
     ∃ res, r = Ok res)
  ∧ (insts !! iid = None →
     execute_workflow self fuel iid insts
     = Some (insts, Raise (OtherError ("工作流实例 " +:+ iid +:+ " 不存在")), []))
  ∧ (∀ i step run e,
       dispatch self (set_step_status StepStatus.RUNNING step)
         (set_steps (<[i := set_step_status StepStatus.RUNNING step]>
                       (steps (instance run))) (instance run)) = Raise e →
       ∃ run1 step2,
         _execute_step self i step run = (run1, Raise e)
         ∧ steps (instance run1) = <[i := step2]> (steps (instance run))
         ∧ status step2 = StepStatus.FAILED
         ∧ error step2 = Some (str_exn e)
         ∧ trace run1
           = (trace run
              ++ [ {| tr_step := i; tr_from := status step;
                      tr_to := StepStatus.RUNNING |};
                   {| tr_step := i; tr_from := StepStatus.RUNNING;
                      tr_to := StepStatus.FAILED |} ])%list)
  ∧ (∀ inst insts' r tr,
       insts !! iid = Some inst →
       execute_workflow self fuel iid insts = Some (insts', r, tr) →
       ((∃ t, t ∈ tr ∧ tr_to t = StepStatus.FAILED) ↔ (∃ e, r = Raise e))
       ∧ ∀ e, r = Raise e →
           ∃ inst' pre i s,
             insts' !! iid = Some inst'
             ∧ inst_status inst' = WorkflowStatus.FAILED
             ∧ tr = (pre ++ [{| tr_step := i; tr_from := StepStatus.RUNNING;
                                tr_to := StepStatus.FAILED |}])%list
             ∧ steps inst' !! i = Some s
             ∧ status s = StepStatus.FAILED ∧ error s = Some (str_exn e))
  ∧ (∀ inst step rest e,
       insts !! iid = Some inst →
       steps inst = step :: rest →
       dependencies step = [] →
       dispatch self (set_step_status StepStatus.RUNNING step)
         (set_steps (set_step_status StepStatus.RUNNING step :: rest)
            (set_inst_status WorkflowStatus.RUNNING inst)) = Raise e →
       ∃ inst',
         execute_workflow self (S fuel) iid insts
         = Some (<[iid := inst']> insts, Raise e,
                 [ {| tr_step := 0; tr_from := status step;
                      tr_to := StepStatus.RUNNING |};
                   {| tr_step := 0; tr_from := StepStatus.RUNNING;
                      tr_to := StepStatus.FAILED |} ])
         ∧ inst_status inst' = WorkflowStatus.FAILED
         ∧ steps inst'
           = set_step_status StepStatus.FAILED
               (set_error (Some (str_exn e))
                  (set_step_status StepStatus.RUNNING step)) :: rest)
  ∧ (∀ insts1 e tr,
       execute_workflow self fuel iid insts = Some (insts1, Raise e, tr) →
       ∃ insts',
         execute_workflow_background self fuel iid insts = Some (insts', Ok (), tr)
         ∧ ∀ inst1, insts1 !! iid = Some inst1 →
             ∃ inst', insts' !! iid = Some inst'
                      ∧ inst_status inst' = WorkflowStatus.FAILED)
  ∧ (∀ insts' r tr,
       execute_workflow_background self fuel iid insts = Some (insts', r, tr) →
       r = Ok ()).
Proof.
  split; [|split; [|split; [|split; [|split; [|split]]]]].
  - intros s' r log H. rewrite ClientProps.call_service_unfold in H.
    by eapply ClientProps.call_service_body_returns.
  - apply execute_workflow_unknown.
  - apply _execute_step_reraises.
  - intros inst insts' r tr Hi H. split.
    + by eapply failed_step_is_reraised.
    + intros e ->.
      destruct (execute_workflow_raise _ _ _ _ _ _ _ H) as [(Hn & _)|Hr]; [|done].
      by rewrite Hi in Hn.
  - intros inst step rest e. apply first_step_raises.
  - apply execute_workflow_background_catches.
  - intros insts' r tr. apply execute_workflow_background_returns.
Qed.

(** ** The claims at concrete inputs *)

(** C1, evaluated on the code: with [a] free of dependencies and [b], [c]
    depending on each other, the first scan completes [a]; from then on
    every scan finds nothing to run, [completed_steps] is not empty, so the
    deadlock test never fires: no number of iterations ends the loop. *)
Theorem cyclic_workflow_never_terminates :
  ∀ fuel, execute_workflow ok_handlers fuel "i" (set_steps_of cyclic_steps) = None.
Proof.
  intros fuel. unfold execute_workflow, set_steps_of.
  rewrite lookup_singleton_eq.
  destruct fuel as [|fuel]; [reflexivity|].
  rewrite (while_loop_next ok_handlers fuel _ cyclic_after_first_scan);
    [|vm_compute; reflexivity..].
  rewrite while_loop_stuck; [reflexivity|vm_compute; reflexivity..].
Qed.

(** The scenario of the specification: two steps that depend on each
    other end the instance Failed in the first iteration, nothing run. *)
Lemma two_cycle_ends_failed :
  ∃ insts' inst',
    execute_workflow ok_handlers 1 "i" (set_steps_of two_cycle_steps)
      = Some (insts', Ok (), [])
    ∧ insts' !! "i" = Some inst'
    ∧ inst_status inst' = WorkflowStatus.FAILED
    ∧ steps inst' = two_cycle_steps.
Proof.
  do 2 eexists. split; [vm_compute; reflexivity|].
  split; [vm_compute; reflexivity|]. done.
Qed.

(** C6, refuted as stated: [execute_workflow] raises for an unknown
    instance id, and re-raises the exception of a failing step. *)
Lemma execute_workflow_lets_exceptions_out :
  (∃ e, execute_workflow ok_handlers 5 "nope" ∅ = Some (∅, Raise e, []))
  ∧ (∃ insts' e tr inst',
       execute_workflow ok_handlers 5 "i" (set_steps_of unsupported_steps)
         = Some (insts', Raise e, tr)
       ∧ insts' !! "i" = Some inst'
       ∧ inst_status inst' = WorkflowStatus.FAILED
       ∧ status <$> steps inst'
         = [StepStatus.COMPLETED; StepStatus.FAILED; StepStatus.PENDING]).
Proof.
  split; [eexists; vm_compute; reflexivity|].
  do 4 eexists. split; [vm_compute; reflexivity|].
  split; [vm_compute; reflexivity|]. done.
Qed.

Lemma exceptions_of_call_service_and_execute_workflow_witness :
  (∃ s' res log,
     Client.call_service Client.str_sample "a" "t" (JObj []) None
       Client.services_a Client.env_timeout = Some (s', Ok res, log))
  ∧ (∃ inst',
       execute_workflow failing_fetch_handlers 1 "i" (set_steps_of chain_steps)
       = Some (<["i" := inst']> (set_steps_of chain_steps),
               Raise (OtherError "source unavailable"),
               [ {| tr_step := 0; tr_from := StepStatus.PENDING;
                    tr_to := StepStatus.RUNNING |};
                 {| tr_step := 0; tr_from := StepStatus.RUNNING;
                    tr_to := StepStatus.FAILED |} ])
       ∧ inst_status inst' = WorkflowStatus.FAILED
       ∧ (status <$> steps inst') = [StepStatus.FAILED; StepStatus.PENDING]
       ∧ (error <$> steps inst') = [Some "source unavailable"; None])
  ∧ (∃ insts',
       execute_workflow_background failing_fetch_handlers 1 "i"
         (set_steps_of chain_steps)
       = Some (insts', Ok (),
               [ {| tr_step := 0; tr_from := StepStatus.PENDING;
                    tr_to := StepStatus.RUNNING |};
                 {| tr_step := 0; tr_from := StepStatus.RUNNING;
                    tr_to := StepStatus.FAILED |} ])).
Proof.
  destruct (exceptions_of_call_service_and_execute_workflow
              Client.str_sample "a" "t" (JObj []) None Client.services_a
              Client.env_timeout failing_fetch_handlers 0%nat "i"
              (set_steps_of chain_steps)) as (H1 & _ & _ & _ & H5 & _).
  destruct (exceptions_of_call_service_and_execute_workflow
              Client.str_sample "a" "t" (JObj []) None Client.services_a
              Client.env_timeout failing_fetch_handlers 1%nat "i"
              (set_steps_of chain_steps)) as (_ & _ & _ & _ & _ & H6 & _).
  split; [|split].
  - destruct (Client.call_service Client.str_sample "a" "t" (JObj []) None
                Client.services_a Client.env_timeout)
      as [[[s' r] log]|] eqn:E; [|vm_compute in E; discriminate].
    destruct (H1 _ _ _ eq_refl) as [res ->]. eauto.
  - destruct (H5 (mk_instance chain_steps) (mk_step "a" "data_fetch" [])
                [mk_step "b" "mcp_call" ["a"]] (OtherError "source unavailable"))
      as (inst' & He & Hs & Hsteps); [reflexivity..|].
    exists inst'. split; [exact He|]. split; [exact Hs|].
    rewrite Hsteps. split; reflexivity.
  - destruct (H5 (mk_instance chain_steps) (mk_step "a" "data_fetch" [])
                [mk_step "b" "mcp_call" ["a"]] (OtherError "source unavailable"))
      as (inst' & He & _); [reflexivity..|].
    destruct (H6 _ _ _ He) as (insts' & Hb & _). eauto.
Defined.



Lemma fail_fast_and_completion_witness :
  ∃ insts' r tr,
    execute_workflow ok_handlers 5 "i" (set_steps_of unsupported_steps)
      = Some (insts', r, tr)
    ∧ ∃ inst',
        insts' !! "i" = Some inst'
        ∧ length (steps inst') = length (steps (mk_instance unsupported_steps))
        ∧ (∀ k t, tr !! k = Some t → tr_to t = StepStatus.FAILED →
             S k = length tr ∧ inst_status inst' = WorkflowStatus.FAILED)
        ∧ (∀ j, (∀ t, t ∈ tr → tr_step t ≠ j) →
             steps inst' !! j = steps (mk_instance unsupported_steps) !! j)
        ∧ (inst_status inst' = WorkflowStatus.COMPLETED →
           Forall (λ s, status s = StepStatus.COMPLETED) (steps inst')).
Proof.
  do 3 eexists. split; [vm_compute; reflexivity|].
  eapply (fail_fast_and_completion ok_handlers 5 "i"
            (set_steps_of unsupported_steps) (mk_instance unsupported_steps)).
  - reflexivity.
  - vm_compute. reflexivity.
Defined.

End EngineProps.

(** * Further properties of the workflow engine *)
Module EngineMore.
Import Engine.

(** ** Invariants of the scan, in general *)
Section Invariants.

Variable self : Handlers.
Variable P : Run → Prop.

Hypothesis P_step : ∀ run i step run1 r,
  P run →
  steps (instance run) !! i = Some step →
  id step ∉ completed_steps run →
  deps_satisfied step (completed_steps run) = true →
  _execute_step self i step run = (run1, r) →
  match r with
  | Ok _ => P (mark_completed step run1)
  | Raise _ => P run1
  end.

Hypothesis P_status : ∀ run v, P run → P (with_inst_status v run).

Lemma for_steps_inv positions run run' fl :
  P run → for_steps self positions run = (run', fl) → P run'.
Proof.
  revert run. induction positions as [|i rest IH]; intros run HP H.
  - cbn [for_steps] in H. by simplify_eq.
  - cbn [for_steps] in H.
    destruct (steps (instance run) !! i) as [step|] eqn:Hi; [|eauto].
    destruct (bool_decide (id step ∈ completed_steps run)) eqn:Hin; [eauto|].
    apply bool_decide_eq_false in Hin.
    destruct (deps_satisfied step (completed_steps run)) eqn:Hd; [|eauto].
    destruct (_execute_step self i step run) as [run1 [u|e]] eqn:He.
    + pose proof (P_step _ _ _ _ _ HP Hi Hin Hd He) as HP2. simpl in HP2.
      fold (mark_completed step run1) in H.
      destruct (steps (instance (mark_completed step run1)) !! i) as [step'|];
        [|eauto].
      destruct (StepStatus.eqb (status step') StepStatus.FAILED); [|eauto].
      simplify_eq. by apply (P_status _ WorkflowStatus.FAILED).
    + simplify_eq. exact (P_step _ _ _ _ _ HP Hi Hin Hd He).
Qed.

Lemma while_loop_inv fuel run run' fl :
  P run → while_loop self fuel run = Some (run', fl) → P run'.
Proof.
  revert run. induction fuel as [|fuel IH]; intros run HP H; [done|].
  cbn [while_loop] in H.
  destruct (size (completed_steps run) <? length (steps (instance run)))%nat;
    [|by simplify_eq].
  destruct (for_steps self _ run) as [run1 fl1] eqn:Hf.
  pose proof (for_steps_inv _ _ _ _ HP Hf) as HP1.
  destruct fl1; [|by simplify_eq..].
  destruct (size (completed_steps run1) =? 0)%nat; [|eauto].
  simplify_eq. by apply (P_status _ WorkflowStatus.FAILED).
Qed.

(** The instance [execute_workflow] stores is the instance of a run that
    satisfies the invariant, up to its status. *)
Lemma execute_workflow_inv fuel iid insts inst insts' r tr :
  insts !! iid = Some inst →
  P {| instance := set_inst_status WorkflowStatus.RUNNING inst;
       completed_steps := ∅; trace := [] |} →
  execute_workflow self fuel iid insts = Some (insts', r, tr) →
  ∃ run v, P run ∧ tr = trace run
           ∧ insts' = <[iid := set_inst_status v (instance run)]> insts.
Proof.
  intros Hi HP H. unfold execute_workflow in H. rewrite Hi in H.
  destruct (while_loop self fuel _) as [[run fl]|] eqn:Hw; [|done].
  pose proof (while_loop_inv _ _ _ _ HP Hw) as HP'.
  destruct fl; simplify_eq.
  - by exists run, WorkflowStatus.COMPLETED.
  - exists run, (inst_status (instance run)). repeat split; [done|].
    by destruct (instance run).
  - by exists run, WorkflowStatus.FAILED.
Qed.

End Invariants.

Section WithHandlers.

Variable self : Handlers.

Lemma same_identity_trans a b c :
  same_identity a b → same_identity b c → same_identity a c.
Proof.
  intros (A1 & A2 & A3 & A4 & A5 & A6) (B1 & B2 & B3 & B4 & B5 & B6).
  repeat split; congruence.
Qed.

Lemma _execute_step_identity i step run run1 r :
  _execute_step self i step run = (run1, r) →
  ∃ step2,
    steps (instance run1) = <[i := step2]> (steps (instance run))
    ∧ same_identity step2 step
    ∧ inst_id (instance run1) = inst_id (instance run)
    ∧ workflow_name (instance run1) = workflow_name (instance run)
    ∧ inst_parameters (instance run1) = inst_parameters (instance run)
    ∧ completed_steps run1 = completed_steps run
    ∧ trace run1
      = (trace run
         ++ [{| tr_step := i; tr_from := status step; tr_to := StepStatus.RUNNING |};
             {| tr_step := i; tr_from := StepStatus.RUNNING;
                tr_to := match r with
                         | Ok _ => StepStatus.COMPLETED
                         | Raise _ => StepStatus.FAILED
                         end |}])%list
    ∧ status step2 = match r with
                     | Ok _ => StepStatus.COMPLETED
                     | Raise _ => StepStatus.FAILED
                     end.
Proof.
  unfold _execute_step. intros H.
  destruct (dispatch self _ _) as [res|e]; simplify_eq/=;
    eexists; rewrite list_insert_insert_eq, <- app_assoc;
    (split; [reflexivity|]); (split; [by repeat split|]); done.
Qed.

Lemma keeps_identity_step inst run i step run1 r :
  keeps_identity inst run →
  steps (instance run) !! i = Some step →
  _execute_step self i step run = (run1, r) →
  keeps_identity inst run1.
Proof.
  intros (H1 & H2 & H3 & HF) Hi He.
  destruct (_execute_step_identity _ _ _ _ _ He)
    as (step2 & Hs & Hid & E1 & E2 & E3 & _).
  unfold keeps_identity. rewrite E1, E2, E3, Hs. repeat split; try done.
  destruct (Forall2_lookup_l _ _ _ _ _ HF Hi) as (s0 & Hs0 & Hsame).
  rewrite <- (list_insert_id (steps inst) i s0) by done.
  apply Forall2_insert; [done|]. by eapply same_identity_trans.
Qed.

Lemma keeps_identity_init inst :
  keeps_identity inst {| instance := set_inst_status WorkflowStatus.RUNNING inst;
                         completed_steps := ∅; trace := [] |}.
Proof.
  repeat split. simpl. apply Forall_Forall2_diag, Forall_forall.
  intros s _. by repeat split.
Qed.

(** X1. Whenever [execute_workflow] ends, the other instances of the store
    are untouched, and the executed instance kept its id, workflow name and
    parameters, its number of steps, and the id, name, description, type,
    parameters and dependencies of every step.  (Nothing is said of the
    fields a run writes: statuses, results, errors, the current step, and
    the timestamps, which the records leave out.) *)
Theorem execute_workflow_keeps_identity fuel iid insts inst insts' r tr :
  insts !! iid = Some inst →
  execute_workflow self fuel iid insts = Some (insts', r, tr) →
  (∀ j, j ≠ iid → insts' !! j = insts !! j)
  ∧ ∃ inst',
      insts' !! iid = Some inst'
      ∧ inst_id inst' = inst_id inst
      ∧ workflow_name inst' = workflow_name inst
      ∧ inst_parameters inst' = inst_parameters inst
      ∧ Forall2 same_identity (steps inst') (steps inst).
Proof.
  intros Hi H.
  destruct (execute_workflow_inv self (keeps_identity inst)) with (3 := Hi) (5 := H)
    as (run & v & (H1 & H2 & H3 & HF) & _ & ->).
  - intros run i step run1 r0 HP Hs _ _ He.
    pose proof (keeps_identity_step _ _ _ _ _ _ HP Hs He) as HP1.
    destruct r0; [|done]. exact HP1.
  - intros run v HP. exact HP.
  - apply keeps_identity_init.
  - split.
    + intros j Hj. by rewrite lookup_insert_ne.
    + eexists. split; [apply lookup_insert_eq|]. done.
Qed.

(** ** Dependencies come first *)




(** ** How a run can end *)

Lemma execute_workflow_cases fuel iid insts inst insts' r tr :
  insts !! iid = Some inst →
  execute_workflow self fuel iid insts = Some (insts', r, tr) →
  ∃ run fl,
    while_loop self fuel {| instance := set_inst_status WorkflowStatus.RUNNING inst;
                            completed_steps := ∅; trace := [] |} = Some (run, fl)
    ∧ tr = trace run
    ∧ match fl with
      | Normal =>
          r = Ok () ∧
          insts' = <[iid := set_inst_status WorkflowStatus.COMPLETED (instance run)]> insts
      | Returned => r = Ok () ∧ insts' = <[iid := instance run]> insts
      | Raised e =>
          r = Raise e ∧
          insts' = <[iid := set_inst_status WorkflowStatus.FAILED (instance run)]> insts
      end.
Proof.
  intros Hi H. unfold execute_workflow in H. rewrite Hi in H.
  destruct (while_loop self fuel _) as [[run fl]|] eqn:Hw; [|done].
  exists run, fl. destruct fl; by simplify_eq.
Qed.

(** The branch that returns from inside the scan is never taken: a step
    whose handler returned is Completed, not Failed. *)
Lemma for_steps_not_returned inst0 positions run run' :
  Inv inst0 run → for_steps self positions run ≠ (run', Returned).
Proof.
  revert run. induction positions as [|i rest IH]; intros run HInv H.
  - cbn [for_steps] in H. by simplify_eq.
  - cbn [for_steps] in H.
    destruct (steps (instance run) !! i) as [step|] eqn:Hi; [|by eapply IH].
    destruct (bool_decide (id step ∈ completed_steps run)) eqn:Hin; [by eapply IH|].
    apply bool_decide_eq_false in Hin.
    destruct (deps_satisfied step (completed_steps run)); [|by eapply IH].
    destruct (_execute_step self i step run) as [run1 [u|e]] eqn:He; [|done].
    destruct (EngineProps.step_completed _ _ _ _ _ _ _ HInv Hi Hin He)
      as (HInv2 & step2 & Hi2 & Hs2).
    cbn [instance set_current_step steps] in H. rewrite Hi2, Hs2 in H.
    cbn [StepStatus.eqb] in H. by eapply IH.
Qed.

Lemma nothing_ran_yet_step inst run i step run1 r :
  steps (instance run) !! i = Some step →
  _execute_step self i step run = (run1, r) →
  match r with
  | Ok _ => nothing_ran_yet inst (mark_completed step run1)
  | Raise _ => nothing_ran_yet inst run1
  end.
Proof.
  intros Hi He.
  destruct (_execute_step_identity _ _ _ _ _ He)
    as (step2 & _ & _ & _ & _ & _ & Hdone & Htr & _).
  destruct r as [u|e]; split; simpl; rewrite Htr.
  - intros Hnil. by destruct (trace run).
  - intros Hsz _. apply size_empty_inv in Hsz.
    assert (id step ∈ completed_steps run1 ∪ {[id step]}) as Hin
      by (apply elem_of_union_r; by apply elem_of_singleton).
    rewrite Hsz in Hin. by apply not_elem_of_empty in Hin.
  - intros Hnil. by destruct (trace run).
  - intros _ Hcl. unfold clean in Hcl. rewrite Forall_app in Hcl.
    destruct Hcl as [_ Hcl]. apply Forall_cons in Hcl as [_ Hcl].
    apply Forall_cons in Hcl as [Hcl _]. done.
Qed.

Lemma for_steps_nothing_ran inst positions run run' fl :
  nothing_ran_yet inst run →
  for_steps self positions run = (run', fl) →
  nothing_ran_yet inst run'.
Proof.
  apply (for_steps_inv self (nothing_ran_yet inst)).
  - intros run0 i step run1 r _ Hi _ _ He. by eapply nothing_ran_yet_step.
  - intros run0 v HP. exact HP.
Qed.

Lemma while_loop_returned inst fuel run run' :
  Inv inst run → nothing_ran_yet inst run →
  while_loop self fuel run = Some (run', Returned) →
  trace run' = [] ∧ steps (instance run') = steps inst.
Proof.
  revert run. induction fuel as [|fuel IH]; intros run HInv HP H; [done|].
  cbn [while_loop] in H.
  destruct (size (completed_steps run) <? length (steps (instance run)))%nat;
    [|by simplify_eq].
  destruct (for_steps self _ run) as [run1 fl1] eqn:Hf.
  pose proof (EngineProps.for_steps_post _ _ _ _ _ _ HInv Hf) as HPost.
  pose proof (for_steps_nothing_ran _ _ _ _ _ HP Hf) as HP1.
  destruct fl1 as [| |e].
  - destruct (size (completed_steps run1) =? 0)%nat eqn:E; [|eauto].
    simplify_eq. simpl. apply Nat.eqb_eq in E.
    destruct HP1 as [Hnil Hsz]. destruct HPost as [_ Hcl _ _ _].
    specialize (Hsz E Hcl). auto.
  - by destruct (for_steps_not_returned _ _ _ _ HInv Hf).
  - by simplify_eq.
Qed.

(** X3. A run that is not interrupted from outside (no task cancellation
    or other exception outside [Exception], which would leave the instance
    Running) and ends has one of three outcomes.  It returns with the
    instance Completed and every step Completed; or it returns with the
    instance Failed, and then no step was ever started and the steps are as
    they were (the deadlock test only fires before anything ran); or it
    raises, with the instance Failed and the assignment of Failed to a step
    as its last status assignment.  The status the instance had before, be
    it Cancelled or Completed, plays no role. *)
Theorem execute_workflow_outcomes fuel iid insts inst insts' r tr :
  insts !! iid = Some inst →
  execute_workflow self fuel iid insts = Some (insts', r, tr) →
  ∃ inst',
    insts' !! iid = Some inst'
    ∧ ((r = Ok () ∧ inst_status inst' = WorkflowStatus.COMPLETED
        ∧ Forall (λ s, status s = StepStatus.COMPLETED) (steps inst')
        ∧ clean tr)
       ∨ (r = Ok () ∧ inst_status inst' = WorkflowStatus.FAILED
          ∧ tr = [] ∧ steps inst' = steps inst)
       ∨ (∃ e i, r = Raise e ∧ inst_status inst' = WorkflowStatus.FAILED
                 ∧ last tr = Some {| tr_step := i; tr_from := StepStatus.RUNNING;
                                     tr_to := StepStatus.FAILED |})).
Proof.
  intros Hi H.
  destruct (execute_workflow_cases _ _ _ _ _ _ _ Hi H) as (run & fl & Hw & -> & Hfl).
  destruct (EngineProps.while_loop_post _ _ _ _ _ _ (EngineProps.Inv_init inst) Hw)
    as [HPost Hn].
  destruct fl as [| |e]; simpl in HPost.
  - destruct Hfl as [-> ->]. eexists. split; [apply lookup_insert_eq|]. left.
    destruct HPost as [_ Hcl Hcount _ _]. specialize (Hn eq_refl).
    repeat split; [|done]. simpl.
    assert (Hfull : Forall (λ s, recorded (completed_steps run) s = true)
                      (steps (instance run))).
    { apply EngineProps.count_full. lia. }
    eapply Forall_impl; [exact Hfull|]. intros s Hs. unfold recorded in Hs.
    apply andb_true_iff in Hs as [_ Hs]. by destruct (status s).
  - destruct Hfl as [-> ->]. eexists. split; [apply lookup_insert_eq|].
    right. left. destruct HPost as (_ & _ & Hst).
    assert (Hnr : nothing_ran_yet inst
                    {| instance := set_inst_status WorkflowStatus.RUNNING inst;
                       completed_steps := ∅; trace := [] |}) by done.
    destruct (while_loop_returned inst _ _ _ (EngineProps.Inv_init inst) Hnr Hw)
      as [Htr Hsteps].
    done.
  - destruct Hfl as [-> ->]. eexists. split; [apply lookup_insert_eq|].
    right. right. destruct HPost as (_ & _ & pre & i & s & Htr & _).
    exists e, i. repeat split. rewrite Htr. apply last_snoc.
Qed.

(** ** Step ids that repeat *)

Lemma size_list_to_set_le (l : list string) :
  (size (list_to_set l : gset string) ≤ length l)%nat.
Proof.
  induction l as [|y l IH]; [done|].
  cbn [list_to_set foldr length].
  rewrite size_union_alt, size_singleton.
  assert (size (list_to_set l ∖ {[y]} : gset string)
          ≤ size (list_to_set l : gset string))%nat
    by (apply subseteq_size, subseteq_difference_l; reflexivity).
  lia.
Qed.

Lemma size_list_to_set_dup (l : list string) :
  ¬ NoDup l → (size (list_to_set l : gset string) < length l)%nat.
Proof.
  induction l as [|x l IH]; intros Hnd.
  - destruct Hnd. constructor.
  - cbn [list_to_set foldr length].
    pose proof (size_list_to_set_le l) as Hle.
    destruct (decide (x ∈ l)) as [Hin|Hnin].
    + replace ({[x]} ∪ list_to_set l : gset string) with (list_to_set l : gset string);
        [lia|].
      apply set_eq. intros y. rewrite elem_of_union, elem_of_singleton.
      split; [by right|]. intros [->|?]; [|done]. by apply elem_of_list_to_set.
    + assert (¬ NoDup l) as Hnd' by (intros ?; apply Hnd; by constructor).
      specialize (IH Hnd').
      rewrite size_union_alt, size_singleton.
      assert (size (list_to_set l ∖ {[x]} : gset string)
              ≤ size (list_to_set l : gset string))%nat
        by (apply subseteq_size, subseteq_difference_l; reflexivity).
      lia.
Qed.

Lemma completed_are_ids_inv inst fuel run run' fl :
  keeps_identity inst run ∧ completed_are_ids inst run →
  while_loop self fuel run = Some (run', fl) →
  keeps_identity inst run' ∧ completed_are_ids inst run'.
Proof.
  apply (while_loop_inv self (λ run, keeps_identity inst run ∧ completed_are_ids inst run)).
  - intros run0 i step run1 r [Hid Hsub] Hi _ _ He.
    pose proof (keeps_identity_step _ _ _ _ _ _ Hid Hi He) as Hid1.
    destruct (_execute_step_identity _ _ _ _ _ He)
      as (step2 & _ & _ & _ & _ & _ & Hdone & _ & _).
    assert (completed_are_ids inst run1) as Hsub1
      by (unfold completed_are_ids; by rewrite Hdone).
    destruct r; [|done]. split.
    + destruct Hid1 as (A & B & C & D). by repeat split.
    + unfold completed_are_ids in *. simpl.
      apply union_subseteq. split; [done|].
      apply singleton_subseteq_l, elem_of_list_to_set.
      destruct Hid as (_ & _ & _ & HF).
      destruct (Forall2_lookup_l _ _ _ _ _ HF Hi) as (s0 & Hs0 & Hss0).
      destruct Hss0 as (-> & _). apply list_elem_of_fmap. exists s0.
      split; [done|]. by eapply list_elem_of_lookup_2.
  - intros run0 v HP. exact HP.
Qed.

(** X4. An instance in which two steps share an id never ends Completed:
    whenever its run ends, the instance is Failed. *)
Theorem duplicate_ids_never_complete fuel iid insts inst insts' r tr :
  insts !! iid = Some inst →
  ¬ NoDup (id <$> steps inst) →
  execute_workflow self fuel iid insts = Some (insts', r, tr) →
  ∃ inst', insts' !! iid = Some inst'
           ∧ inst_status inst' = WorkflowStatus.FAILED.
Proof.
  intros Hi Hdup H.
  destruct (execute_workflow_cases _ _ _ _ _ _ _ Hi H) as (run & fl & Hw & -> & Hfl).
  destruct (EngineProps.while_loop_post _ _ _ _ _ _ (EngineProps.Inv_init inst) Hw)
    as [HPost Hn].
  destruct fl as [| |e]; simpl in HPost.
  - exfalso. specialize (Hn eq_refl).
    destruct (completed_are_ids_inv inst _ _ _ _
                (conj (keeps_identity_init inst) (empty_subseteq _)) Hw)
      as [(_ & _ & _ & HF) Hsub].
    unfold completed_are_ids in Hsub.
    apply subseteq_size in Hsub. apply size_list_to_set_dup in Hdup.
    apply Forall2_length in HF. rewrite length_fmap in Hdup. lia.
  - destruct Hfl as [-> ->]. eexists. split; [apply lookup_insert_eq|].
    by destruct HPost as (_ & _ & Hst).
  - destruct Hfl as [-> ->]. eexists. split; [apply lookup_insert_eq|]. done.
Qed.

(** ** Nothing can start *)

Lemma for_steps_blocked positions run :
  completed_steps run = ∅ →
  Forall (λ s, dependencies s ≠ []) (steps (instance run)) →
  for_steps self positions run = (run, Normal).
Proof.
  intros Hdone Hdeps. induction positions as [|i rest IH]; [done|].
  cbn [for_steps].
  destruct (steps (instance run) !! i) as [step|] eqn:Hi; [|done].
  rewrite Hdone. rewrite bool_decide_eq_false_2 by apply not_elem_of_empty.
  rewrite Forall_lookup in Hdeps. specialize (Hdeps _ _ Hi).
  unfold deps_satisfied. destruct (dependencies step) as [|d ds]; [done|].
  simpl. rewrite bool_decide_eq_false_2 by apply not_elem_of_empty.
  simpl. exact IH.
Qed.

(** X5. When the instance has steps and each of them declares at least one
    dependency, the first iteration ends the run: [execute_workflow] returns
    normally, the instance is Failed, and no step was started or changed. *)
Theorem deadlock_when_nothing_can_start fuel iid insts inst :
  insts !! iid = Some inst →
  steps inst ≠ [] →
  Forall (λ s, dependencies s ≠ []) (steps inst) →
  execute_workflow self (S fuel) iid insts
  = Some (<[iid := set_inst_status WorkflowStatus.FAILED inst]> insts, Ok (), []).
Proof.
  intros Hi Hne Hdeps. unfold execute_workflow. rewrite Hi.
  set (run0 := {| instance := set_inst_status WorkflowStatus.RUNNING inst;
                  completed_steps := ∅; trace := [] |}).
  assert (Hcond : (size (completed_steps run0)
                   <? length (steps (instance run0)))%nat = true).
  { simpl. destruct (steps inst); [done|]. reflexivity. }
  pose proof (for_steps_blocked (seq 0 (length (steps (instance run0)))) run0
                eq_refl Hdeps) as Hscan.
  cbn [while_loop]. rewrite Hcond, Hscan. reflexivity.
Qed.

(** ** A workflow listed in dependency order *)

Lemma handlers_return_step inst i step run :
  handlers_return self inst →
  step_type step ∈ (step_type <$> steps inst) →
  ∃ run1, _execute_step self i step run = (run1, Ok ()).
Proof.
  intros Hret Hty. unfold _execute_step.
  edestruct (Hret (set_step_status StepStatus.RUNNING step)) as [res ->]; [done|].
  eauto.
Qed.

Lemma elem_of_ids_take (l : list WorkflowStep) k d :
  d ∈ (list_to_set (id <$> take k l) : gset string)
  ↔ ∃ j s, (j < k)%nat ∧ l !! j = Some s ∧ id s = d.
Proof.
  rewrite elem_of_list_to_set, list_elem_of_fmap. split.
  - intros (s & -> & Hs). apply list_elem_of_lookup in Hs as [j Hj].
    apply lookup_take_Some in Hj as [Hj Hlt]. eauto.
  - intros (j & s & Hlt & Hj & <-). exists s. split; [done|].
    apply list_elem_of_lookup. exists j. by rewrite lookup_take_lt.
Qed.

Lemma scan_in_order inst :
  all_pending inst →
  NoDup (id <$> steps inst) →
  topologically_ordered (steps inst) →
  handlers_return self inst →
  ∀ m k run,
    (k + m = length (steps inst))%nat →
    keeps_identity inst run →
    completed_steps run = list_to_set (id <$> take k (steps inst)) →
    (∀ i, (k ≤ i)%nat → steps (instance run) !! i = steps inst !! i) →
    (∀ i s, (i < k)%nat → steps (instance run) !! i = Some s →
            status s = StepStatus.COMPLETED) →
    ∃ run',
      for_steps self (seq k m) run = (run', Normal)
      ∧ completed_steps run' = list_to_set (id <$> steps inst)
      ∧ trace run' = (trace run ++ run_in_order (seq k m))%list
      ∧ inst_status (instance run') = inst_status (instance run)
      ∧ length (steps (instance run')) = length (steps inst)
      ∧ Forall (λ s, status s = StepStatus.COMPLETED) (steps (instance run')).
Proof.
  intros Hpend Hnd Htopo Hret. induction m as [|m IH]; intros k run Hk Hid Hdone Hrest Hpre.
  - exists run. cbn [seq for_steps]. split; [done|].
    destruct Hid as (_ & _ & _ & HF). apply Forall2_length in HF.
    split; [|split; [|split; [done|split; [done|]]]].
    + rewrite Hdone, take_ge by lia. done.
    + unfold run_in_order. simpl. by rewrite app_nil_r.
    + apply Forall_lookup. intros i s Hi. eapply Hpre; [|done].
      apply lookup_lt_Some in Hi. lia.
  - destruct (lookup_lt_is_Some_2 (steps inst) k) as [s0 Hs0]; [lia|].
    assert (Hrk : steps (instance run) !! k = Some s0) by (by rewrite Hrest).
    assert (Hnew : id s0 ∉ completed_steps run).
    { rewrite Hdone, elem_of_ids_take. intros (j & s & Hlt & Hj & Hjid).
      assert (j = k); [|lia].
      eapply (NoDup_lookup _ _ _ _ Hnd); rewrite list_lookup_fmap.
      - by rewrite Hj.
      - rewrite Hs0. simpl. by rewrite Hjid. }
    assert (Hsat : deps_satisfied s0 (completed_steps run) = true).
    { unfold deps_satisfied. apply forallb_forall. intros d Hd.
      apply bool_decide_eq_true. rewrite Hdone, elem_of_ids_take.
      apply list_elem_of_In in Hd.
      destruct (Htopo _ _ _ Hs0 Hd) as (j & s' & ? & ? & ?). eauto. }
    destruct (handlers_return_step inst k s0 run Hret) as [run1 He].
    { apply list_elem_of_fmap. exists s0. split; [done|].
      by eapply list_elem_of_lookup_2. }
    pose proof (keeps_identity_step _ _ _ _ _ _ Hid Hrk He) as Hid1.
    destruct (_execute_step_identity _ _ _ _ _ He)
      as (step2 & Hsteps & Hsame & _ & _ & _ & Hdone1 & Htr & Hst2).
    pose proof (lookup_lt_Some _ _ _ Hrk) as Hlt.
    destruct (IH (S k) (mark_completed s0 run1)) as (run' & Hf & Hc & Ht & Hs & Hlen & Hall).
    + lia.
    + destruct Hid1 as (A & B & C & D). by repeat split.
    + simpl. rewrite Hdone1, Hdone.
      rewrite (take_S_r _ _ _ Hs0), fmap_app, list_to_set_app_L. simpl.
      by rewrite union_empty_r_L.
    + intros i Hi. simpl. rewrite Hsteps.
      rewrite list_lookup_insert_ne by lia. apply Hrest. lia.
    + intros i s Hi Hsi. simpl in Hsi. rewrite Hsteps in Hsi.
      destruct (decide (i = k)) as [->|Hne].
      * rewrite list_lookup_insert_eq in Hsi by done. by simplify_eq.
      * rewrite list_lookup_insert_ne in Hsi by done. eapply Hpre; [|done]. lia.
    + exists run'. cbn [seq for_steps]. rewrite Hrk.
      rewrite bool_decide_eq_false_2 by done. rewrite Hsat, He.
      fold (mark_completed s0 run1).
      assert (Hl2 : steps (instance (mark_completed s0 run1)) !! k = Some step2).
      { simpl. rewrite Hsteps. by apply list_lookup_insert_eq. }
      rewrite Hl2, Hst2. cbn [StepStatus.eqb]. split; [done|].
      split; [done|]. split; [|split; [|done]].
      * rewrite Ht. simpl. rewrite Htr, <- app_assoc.
        unfold all_pending in Hpend. rewrite Forall_lookup in Hpend.
        by rewrite (Hpend _ _ Hs0).
      * rewrite Hs. simpl.
        unfold _execute_step in He.
        destruct (dispatch self _ _); by simplify_eq.
Qed.

Lemma ordered_run fuel iid insts inst :
  insts !! iid = Some inst →
  all_pending inst →
  NoDup (id <$> steps inst) →
  topologically_ordered (steps inst) →
  handlers_return self inst →
  ∃ inst',
    execute_workflow self (S (S fuel)) iid insts
    = Some (<[iid := inst']> insts, Ok (),
            run_in_order (seq 0 (length (steps inst))))
    ∧ inst_status inst' = WorkflowStatus.COMPLETED
    ∧ length (steps inst') = length (steps inst)
    ∧ Forall (λ s, status s = StepStatus.COMPLETED) (steps inst').
Proof.
  intros Hi Hpend Hnd Htopo Hret. unfold execute_workflow. rewrite Hi.
  set (run0 := {| instance := set_inst_status WorkflowStatus.RUNNING inst;
                  completed_steps := ∅; trace := [] |}).
  destruct (scan_in_order inst Hpend Hnd Htopo Hret (length (steps inst)) 0 run0)
    as (run' & Hf & Hc & Ht & Hs & Hlen & Hall);
    [lia | apply keeps_identity_init | done | done | intros; lia |].
  assert (Hsize : size (completed_steps run') = length (steps inst)).
  { rewrite Hc, size_list_to_set by done. by rewrite length_fmap. }
  cbn [while_loop].
  change (steps (instance run0)) with (steps inst).
  change (completed_steps run0) with (∅ : gset string).
  rewrite size_empty.
  destruct (decide (length (steps inst) = 0%nat)) as [Hz|Hnz].
  - rewrite Hz. cbn [Nat.ltb Nat.leb].
    exists (set_inst_status WorkflowStatus.COMPLETED (instance run0)).
    split; [reflexivity|]. simpl. split; [done|]. split; [done|].
    apply length_zero_iff_nil in Hz. rewrite Hz. constructor.
  - assert ((0 <? length (steps inst))%nat = true) as -> by (apply Nat.ltb_lt; lia).
    rewrite Hf, Hsize.
    assert ((length (steps inst) =? 0)%nat = false) as -> by (by apply Nat.eqb_neq).
    rewrite Hlen, Nat.ltb_irrefl.
    exists (set_inst_status WorkflowStatus.COMPLETED (instance run')).
    rewrite Ht. split; [reflexivity|]. simpl. done.
Qed.

(** X6. A workflow listed in dependency order completes in a single scan:
    when the step ids are distinct, every dependency of a step is the id of
    a step placed before it, all steps are Pending and the handlers return,
    two iterations of the loop (one scan and the exit test) are enough;
    each step is started and completed exactly once, in list order, and the
    instance ends Completed with every step Completed. *)
Theorem ordered_workflow_completes_in_one_scan fuel iid insts inst :
  insts !! iid = Some inst →
  all_pending inst →
  NoDup (id <$> steps inst) →
  topologically_ordered (steps inst) →
  handlers_return self inst →
  ∃ inst',
    execute_workflow self (S (S fuel)) iid insts
    = Some (<[iid := inst']> insts, Ok (),
            run_in_order (seq 0 (length (steps inst))))
    ∧ inst_status inst' = WorkflowStatus.COMPLETED
    ∧ length (steps inst') = length (steps inst)
    ∧ Forall (λ s, status s = StepStatus.COMPLETED) (steps inst').
Proof. apply ordered_run. Qed.

(** ** An acyclic workflow *)

Lemma scan_progress inst :
  handlers_return self inst →
  ∀ positions run,
    keeps_identity inst run →
    ∃ run',
      for_steps self positions run = (run', Normal)
      ∧ keeps_identity inst run'
      ∧ completed_steps run ⊆ completed_steps run'
      ∧ (completed_are_ids inst run → completed_are_ids inst run')
      ∧ (∀ i s0, i ∈ positions → steps inst !! i = Some s0 →
           (∀ d, d ∈ dependencies s0 → d ∈ completed_steps run) →
           id s0 ∈ completed_steps run').
Proof.
  intros Hret. induction positions as [|i rest IH]; intros run Hid.
  - exists run. split; [done|]. split; [done|]. split; [reflexivity|].
    split; [done|]. intros i s0 Hi. by apply elem_of_nil in Hi.
  - cbn [for_steps]. pose proof Hid as (_ & _ & _ & HF).
    destruct (steps (instance run) !! i) as [step|] eqn:Hi.
    2:{ destruct (IH run Hid) as (run' & Hf & Hid' & Hsub & Hids & Hprog).
        exists run'. split; [done|]. split; [done|]. split; [done|]. split; [done|].
        intros i' s0 Hi' Hs0 Hdeps. apply elem_of_cons in Hi' as [->|Hi']; [|eauto].
        destruct (Forall2_lookup_r _ _ _ _ _ HF Hs0) as (? & ? & _). congruence. }
    destruct (Forall2_lookup_l _ _ _ _ _ HF Hi) as (s1 & Hs1 & Hsame).
    destruct (bool_decide (id step ∈ completed_steps run)) eqn:Hin.
    { apply bool_decide_eq_true in Hin.
      destruct (IH run Hid) as (run' & Hf & Hid' & Hsub & Hids & Hprog).
      exists run'. split; [done|]. split; [done|]. split; [done|]. split; [done|].
      intros i' s0 Hi' Hs0 Hdeps. apply elem_of_cons in Hi' as [->|Hi']; [|eauto].
      simplify_eq. destruct Hsame as (<- & _). by apply Hsub. }
    apply bool_decide_eq_false in Hin.
    destruct (deps_satisfied step (completed_steps run)) eqn:Hsat.
    2:{ destruct (IH run Hid) as (run' & Hf & Hid' & Hsub & Hids & Hprog).
        exists run'. split; [done|]. split; [done|]. split; [done|]. split; [done|].
        intros i' s0 Hi' Hs0 Hdeps. apply elem_of_cons in Hi' as [->|Hi']; [|eauto].
        simplify_eq. exfalso.
        assert (deps_satisfied step (completed_steps run) = true); [|congruence].
        unfold deps_satisfied. apply forallb_forall. intros d Hd.
        apply bool_decide_eq_true, Hdeps. apply list_elem_of_In in Hd.
        destruct Hsame as (_ & _ & _ & _ & _ & <-). done. }
    destruct (handlers_return_step inst i step run Hret) as [run1 He].
    { destruct Hsame as (_ & _ & _ & -> & _). apply list_elem_of_fmap.
      exists s1. split; [done|]. by eapply list_elem_of_lookup_2. }
    rewrite He. fold (mark_completed step run1).
    pose proof (keeps_identity_step _ _ _ _ _ _ Hid Hi He) as Hid1.
    destruct (_execute_step_identity _ _ _ _ _ He)
      as (step2 & Hsteps & _ & _ & _ & _ & Hdone1 & _ & Hst2).
    assert (Hl2 : steps (instance (mark_completed step run1)) !! i = Some step2).
    { simpl. rewrite Hsteps. apply list_lookup_insert_eq. by eapply lookup_lt_Some. }
    rewrite Hl2, Hst2. cbn [StepStatus.eqb].
    destruct (IH (mark_completed step run1)) as (run' & Hf & Hid' & Hsub & Hids & Hprog).
    { destruct Hid1 as (A & B & C & D). by repeat split. }
    assert (Hsub1 : completed_steps run ⊆ completed_steps (mark_completed step run1)).
    { simpl. rewrite Hdone1. apply union_subseteq_l. }
    exists run'. split; [done|]. split; [done|]. split; [by etrans|]. split.
    + intros Hci. apply Hids. unfold completed_are_ids in *. simpl. rewrite Hdone1.
      apply union_subseteq. split; [done|].
      apply singleton_subseteq_l, elem_of_list_to_set.
      destruct Hsame as (-> & _). apply list_elem_of_fmap. exists s1.
      split; [done|]. by eapply list_elem_of_lookup_2.
    + intros i' s0 Hi' Hs0 Hdeps. apply elem_of_cons in Hi' as [->|Hi'].
      * simplify_eq. apply Hsub. simpl. destruct Hsame as (<- & _).
        apply elem_of_union_r. by apply elem_of_singleton.
      * eapply Hprog; [done..|]. intros d Hd. by apply Hsub1, Hdeps.
Qed.

Lemma least_rank (rank : string → nat) (l : list WorkflowStep) :
  l ≠ [] → ∃ s, s ∈ l ∧ ∀ s', s' ∈ l → (rank (id s) ≤ rank (id s'))%nat.
Proof.
  induction l as [|x l IH]; [done|]. intros _.
  destruct l as [|y l].
  - exists x. split; [apply list_elem_of_here|]. intros s' Hs'.
    apply list_elem_of_singleton in Hs' as ->. done.
  - destruct IH as (s & Hs & Hmin); [done|].
    destruct (decide (rank (id x) ≤ rank (id s))%nat).
    + exists x. split; [apply list_elem_of_here|]. intros s' Hs'.
      apply elem_of_cons in Hs' as [->|Hs']; [done|]. specialize (Hmin _ Hs'). lia.
    + exists s. split; [by apply list_elem_of_further|]. intros s' Hs'.
      apply elem_of_cons in Hs' as [->|Hs']; [lia|]. by apply Hmin.
Qed.

Lemma loop_terminates inst rank N :
  NoDup (id <$> steps inst) →
  ranked rank (steps inst) →
  (∀ s, s ∈ steps inst → (rank (id s) < N)%nat) →
  handlers_return self inst →
  ∀ k p run fuel,
    (p + k = N)%nat → (k < fuel)%nat →
    keeps_identity inst run →
    completed_are_ids inst run →
    (∀ s, s ∈ steps inst → (rank (id s) < p)%nat → id s ∈ completed_steps run) →
    ∃ run', while_loop self fuel run = Some (run', Normal).
Proof.
  intros Hnd Hrk Hbound Hret.
  induction k as [|k IH]; intros p run fuel Hpk Hfuel Hid Hids Hdone;
    (destruct fuel as [|fuel]; [lia|]); cbn [while_loop];
    pose proof Hid as (_ & _ & _ & HF); pose proof (Forall2_length _ _ _ HF) as Hlen;
    destruct (size (completed_steps run) <? length (steps (instance run)))%nat eqn:E;
    try (by eexists).
  - exfalso. apply Nat.ltb_lt in E.
    assert (list_to_set (id <$> steps inst) ⊆ completed_steps run) as Hall.
    { intros d Hd. apply elem_of_list_to_set, list_elem_of_fmap in Hd as (s & -> & Hs).
      apply Hdone; [done|]. specialize (Hbound _ Hs). lia. }
    apply subseteq_size in Hall. rewrite size_list_to_set, length_fmap in Hall by done.
    lia.
  - apply Nat.ltb_lt in E.
    destruct (scan_progress inst Hret (seq 0 (length (steps (instance run)))) run Hid)
      as (run1 & Hf & Hid1 & Hsub & Hids1 & Hprog).
    rewrite Hf.
    assert (Hne : steps inst ≠ []) by (intros Hnil; rewrite Hnil in Hlen; simpl in Hlen; lia).
    assert (Hstep : ∀ s, s ∈ steps inst →
              (∀ d, d ∈ dependencies s → d ∈ completed_steps run) →
              id s ∈ completed_steps run1).
    { intros s Hs Hdeps. apply list_elem_of_lookup in Hs as [i Hi].
      eapply Hprog; [|done|done]. apply elem_of_seq.
      apply lookup_lt_Some in Hi. lia. }
    assert ((size (completed_steps run1) =? 0)%nat = false) as ->.
    { apply Nat.eqb_neq. intros Hz. apply size_empty_inv in Hz.
      destruct (least_rank rank _ Hne) as (s & Hs & Hmin).
      assert (id s ∈ completed_steps run1) as Hin.
      { apply Hstep; [done|]. intros d Hd.
        destruct (Hrk _ _ Hs Hd) as (s' & Hs' & <- & Hlt).
        specialize (Hmin _ Hs'). lia. }
      rewrite Hz in Hin. by apply not_elem_of_empty in Hin. }
    apply (IH (S p)); [lia | lia | done | by apply Hids1 |].
    intros s Hs Hlt. apply Hstep; [done|]. intros d Hd.
    destruct (Hrk _ _ Hs Hd) as (s' & Hs' & <- & Hlt').
    apply Hdone; [done|lia].
Qed.

(** X7. An acyclic workflow terminates and completes: when the step ids
    are distinct, the dependencies refer to steps of the instance along a
    rank that decreases (so there is no cycle), ranks stay below [N] and the
    handlers return, [N] scans and the exit test are enough, whatever the
    order of the list: the run returns normally, the instance is Completed
    and so is every step. *)
Theorem acyclic_workflow_completes rank N fuel iid insts inst :
  insts !! iid = Some inst →
  NoDup (id <$> steps inst) →
  ranked rank (steps inst) →
  (∀ s, s ∈ steps inst → (rank (id s) < N)%nat) →
  handlers_return self inst →
  (N < fuel)%nat →
  ∃ inst' tr,
    execute_workflow self fuel iid insts = Some (<[iid := inst']> insts, Ok (), tr)
    ∧ inst_status inst' = WorkflowStatus.COMPLETED
    ∧ Forall (λ s, status s = StepStatus.COMPLETED) (steps inst').
Proof.
  intros Hi Hnd Hrk Hbound Hret Hfuel. unfold execute_workflow. rewrite Hi.
  set (run0 := {| instance := set_inst_status WorkflowStatus.RUNNING inst;
                  completed_steps := ∅; trace := [] |}).
  assert (Hci0 : completed_are_ids inst run0).
  { unfold completed_are_ids. simpl. apply empty_subseteq. }
  destruct (loop_terminates inst rank N Hnd Hrk Hbound Hret N 0 run0 fuel)
    as [run' Hw]; [lia | done | apply keeps_identity_init | exact Hci0
                  | intros; lia |].
  rewrite Hw. do 2 eexists. split; [reflexivity|]. split; [done|]. simpl.
  destruct (EngineProps.while_loop_post _ _ _ _ _ _ (EngineProps.Inv_init inst) Hw)
    as [[_ _ Hcount _ _] Hn].
  specialize (Hn eq_refl).
  assert (Hfull : Forall (λ s, recorded (completed_steps run') s = true)
                    (steps (instance run'))).
  { apply EngineProps.count_full. lia. }
  eapply Forall_impl; [exact Hfull|]. intros s Hs. unfold recorded in Hs.
  apply andb_true_iff in Hs as [_ Hs]. by destruct (status s).
Qed.

(** ** Starting, then executing *)

Lemma clone_step_ids (l : list WorkflowStep) : id <$> map clone_step l = id <$> l.
Proof.
  change (map clone_step l) with (clone_step <$> l).
  apply list_eq. intros i. rewrite !list_lookup_fmap. by destruct (l !! i).
Qed.

Lemma clone_step_types (l : list WorkflowStep) :
  step_type <$> map clone_step l = step_type <$> l.
Proof.
  change (map clone_step l) with (clone_step <$> l).
  apply list_eq. intros i. rewrite !list_lookup_fmap. by destruct (l !! i).
Qed.

Lemma clone_step_ordered (l : list WorkflowStep) :
  topologically_ordered l → topologically_ordered (map clone_step l).
Proof.
  intros H i s d Hi Hd. change (map clone_step l) with (clone_step <$> l) in *.
  rewrite list_lookup_fmap in Hi.
  destruct (l !! i) as [s0|] eqn:Hs0; simplify_eq/=.
  destruct (H _ _ _ Hs0 Hd) as (j & s' & Hlt & Hj & Hid).
  exists j, (clone_step s'). rewrite list_lookup_fmap, Hj. done.
Qed.

Lemma started_run wn params iid defs insts d fuel :
  defs !! wn = Some d →
  NoDup (id <$> def_steps d) →
  topologically_ordered (def_steps d) →
  (∀ step inst', step_type step ∈ (step_type <$> def_steps d) →
     ∃ res, dispatch self step inst' = Ok res) →
  ∃ insts1 inst',
    start_workflow wn params iid defs insts = (insts1, Ok iid)
    ∧ (∀ j, j ≠ iid → insts1 !! j = insts !! j)
    ∧ execute_workflow self (S (S fuel)) iid insts1
      = Some (<[iid := inst']> insts1, Ok (),
              run_in_order (seq 0 (length (def_steps d))))
    ∧ inst_status inst' = WorkflowStatus.COMPLETED
    ∧ length (steps inst') = length (def_steps d)
    ∧ Forall (λ s, status s = StepStatus.COMPLETED) (steps inst').
Proof.
  intros Hd Hnd Htopo Hret. unfold start_workflow. rewrite Hd.
  set (inst := {| inst_id := iid; workflow_name := wn; inst_parameters := params;
                  steps := map clone_step (def_steps d);
                  inst_status := WorkflowStatus.PENDING; current_step := None |}).
  destruct (ordered_run fuel iid (<[iid := inst]> insts) inst)
    as (inst' & He & Hst & Hlen & Hall).
  - apply lookup_insert_eq.
  - unfold all_pending. simpl. apply Forall_forall. intros s Hs.
    apply list_elem_of_fmap in Hs as (s0 & -> & _). done.
  - simpl. by rewrite clone_step_ids.
  - by apply clone_step_ordered.
  - intros step inst1 Hty. apply Hret. simpl in Hty. by rewrite clone_step_types in Hty.
  - exists (<[iid := inst]> insts), inst'. split; [done|].
    split; [intros j Hj; by rewrite lookup_insert_ne|].
    simpl in He, Hlen. rewrite length_map in He, Hlen.
    split; [exact He|]. done.
Qed.

(** X8. Starting a workflow and executing the new instance: for a
    definition whose step ids are distinct and whose dependencies point to
    earlier steps, with handlers that return, [start_workflow] stores a new
    instance under the given id without touching the others, and
    [execute_workflow] then runs every step once, in the order of the
    definition, and leaves the instance Completed, whatever statuses the
    steps of the definition carried. *)
Theorem started_workflow_completes wn params iid defs insts d fuel :
  defs !! wn = Some d →
  NoDup (id <$> def_steps d) →
  topologically_ordered (def_steps d) →
  (∀ step inst', step_type step ∈ (step_type <$> def_steps d) →
     ∃ res, dispatch self step inst' = Ok res) →
  ∃ insts1 inst',
    start_workflow wn params iid defs insts = (insts1, Ok iid)
    ∧ (∀ j, j ≠ iid → insts1 !! j = insts !! j)
    ∧ execute_workflow self (S (S fuel)) iid insts1
      = Some (<[iid := inst']> insts1, Ok (),
              run_in_order (seq 0 (length (def_steps d))))
    ∧ inst_status inst' = WorkflowStatus.COMPLETED
    ∧ length (steps inst') = length (def_steps d)
    ∧ Forall (λ s, status s = StepStatus.COMPLETED) (steps inst').
Proof. apply started_run. Qed.

(** ** The predefined workflows *)

Lemma ordered_from_spec seen l :
  ordered_from seen l = true →
  ∀ i s d, l !! i = Some s → d ∈ dependencies s →
    d ∈ seen ∨ ∃ j s', (j < i)%nat ∧ l !! j = Some s' ∧ id s' = d.
Proof.
  revert seen. induction l as [|x l IH]; intros seen H i s d Hi Hd; [done|].
  cbn [ordered_from] in H. apply andb_true_iff in H as [Hx Hl].
  destruct i as [|i]; simplify_eq/=.
  - left. rewrite forallb_forall in Hx. apply list_elem_of_In in Hd.
    specialize (Hx _ Hd). by apply bool_decide_eq_true in Hx.
  - destruct (IH _ Hl i s d Hi Hd) as [Hin|(j & s' & Hlt & Hj & Hid)].
    + apply elem_of_app in Hin as [Hin|Hin]; [by left|].
      apply list_elem_of_singleton in Hin as ->.
      right. exists 0%nat, x. split; [lia|]. done.
    + right. exists (S j), s'. split; [lia|]. done.
Qed.

Lemma ordered_from_nil l : ordered_from [] l = true → topologically_ordered l.
Proof.
  intros H i s d Hi Hd.
  destruct (ordered_from_spec _ _ H i s d Hi Hd) as [Hin|?]; [|done].
  by apply elem_of_nil in Hin.
Qed.

Lemma predefined_lookup wn d :
  _initialize_workflows ∅ !! wn = Some d →
  d = nfdrs4_workflow ∨ d = lisflood_workflow
  ∨ d = climada_workflow ∨ d = comprehensive_workflow.
Proof.
  unfold _initialize_workflows. intros H.
  repeat (apply lookup_insert_Some in H as [[_ <-]|[_ H]]; [by auto|]).
  by rewrite lookup_empty in H.
Qed.

Lemma predefined_well_formed wn d :
  _initialize_workflows ∅ !! wn = Some d →
  NoDup (id <$> def_steps d)
  ∧ topologically_ordered (def_steps d)
  ∧ Forall (λ s, step_type s ∈ supported_step_types) (def_steps d).
Proof.
  intros H.
  destruct (predefined_lookup _ _ H) as [-> | [-> | [-> | ->]]];
    (split; [apply (bool_decide_unpack _); vm_compute; exact I|]);
    (split; [apply ordered_from_nil; vm_compute; reflexivity|]);
    apply (bool_decide_unpack _); vm_compute; exact I.
Qed.

(** X9. Each of the four workflows registered by [_initialize_workflows]
    has distinct step ids, dependencies that point to earlier steps and
    supported step types; so, with handlers that return, an instance
    started from any of them is executed in a single scan, step after step
    in the order of the definition, and ends Completed. *)
Theorem predefined_workflows_complete wn params iid insts d fuel :
  _initialize_workflows ∅ !! wn = Some d →
  all_handlers_return self →
  (NoDup (id <$> def_steps d)
   ∧ topologically_ordered (def_steps d)
   ∧ Forall (λ s, step_type s ∈ supported_step_types) (def_steps d))
  ∧ ∃ insts1 inst',
      start_workflow wn params iid (_initialize_workflows ∅) insts = (insts1, Ok iid)
      ∧ execute_workflow self (S (S fuel)) iid insts1
        = Some (<[iid := inst']> insts1, Ok (),
                run_in_order (seq 0 (length (def_steps d))))
      ∧ inst_status inst' = WorkflowStatus.COMPLETED
      ∧ Forall (λ s, status s = StepStatus.COMPLETED) (steps inst').
Proof.
  intros Hd Hret.
  pose proof (predefined_well_formed _ _ Hd) as (Hnd & Htopo & Hty).
  split; [done|].
  destruct (started_run wn params iid (_initialize_workflows ∅) insts d fuel Hd Hnd Htopo)
    as (insts1 & inst' & H1 & _ & H2 & H3 & _ & H4).
  - intros step inst1 Hin. apply Hret.
    apply list_elem_of_fmap in Hin as (s0 & -> & Hs0).
    rewrite Forall_forall in Hty. by apply Hty.
  - eauto 10.
Qed.

(** ** Cancelling *)

(** X10. [cancel_workflow] succeeds exactly for an instance that exists and
    is neither Completed nor Failed.  A refused cancellation changes
    nothing.  A successful one sets the status of the instance Cancelled
    and leaves its steps (none is stopped or marked), its id, workflow
    name, parameters and current step, and all other instances, as they
    were.  Cancelling again gives the same answer: an instance that is
    already Cancelled is cancelled once more.  (That second call writes
    [end_time] again; the timestamps are not part of the records.) *)
Theorem cancel_workflow_repeated iid (insts : gmap string WorkflowInstance) :
  ((cancel_workflow iid insts).2 = true
   ↔ ∃ inst, insts !! iid = Some inst
             ∧ inst_status inst ≠ WorkflowStatus.COMPLETED
             ∧ inst_status inst ≠ WorkflowStatus.FAILED)
  ∧ ((cancel_workflow iid insts).2 = false → (cancel_workflow iid insts).1 = insts)
  ∧ (∀ j, j ≠ iid → (cancel_workflow iid insts).1 !! j = insts !! j)
  ∧ (∀ inst, insts !! iid = Some inst → (cancel_workflow iid insts).2 = true →
       ∃ inst', (cancel_workflow iid insts).1 !! iid = Some inst'
                ∧ inst_status inst' = WorkflowStatus.CANCELLED
                ∧ steps inst' = steps inst
                ∧ inst_id inst' = inst_id inst
                ∧ workflow_name inst' = workflow_name inst
                ∧ inst_parameters inst' = inst_parameters inst
                ∧ current_step inst' = current_step inst)
  ∧ (cancel_workflow iid (cancel_workflow iid insts).1).2
    = (cancel_workflow iid insts).2.
Proof.
  unfold cancel_workflow.
  destruct (insts !! iid) as [inst|] eqn:Hi; simpl.
  2:{ rewrite Hi. split; [|done]. split; [done|]. by intros (? & ? & _). }
  destruct (inst_status inst) eqn:Hst; simpl;
    rewrite ?lookup_insert_eq, ?Hi, ?Hst; simpl;
    (split; [split; [intros; try done; exists inst; by rewrite Hst
                    |intros (i0 & [= <-] & H1 & H2); congruence]|]);
    (split; [done|]);
    (split; [intros j Hj; by rewrite ?lookup_insert_ne|]);
    (split; [|done]);
    intros i0 [= <-] Ht; try done; eexists; (split; [reflexivity|done]).
Qed.

(** X11. A cancellation does not stop anything: executing an instance
    after [cancel_workflow] does exactly what executing it without the
    cancellation does, with the same status assignments and the same store
    at the end. *)
Theorem cancel_is_not_seen_by_execute fuel iid (insts : gmap string WorkflowInstance) :
  execute_workflow self fuel iid (cancel_workflow iid insts).1
  = execute_workflow self fuel iid insts.
Proof.
  unfold cancel_workflow.
  destruct (insts !! iid) as [inst|] eqn:Hi; [|done].
  destruct (inst_status inst) eqn:Hst; cbn [fst]; try done;
    unfold execute_workflow; rewrite lookup_insert_eq, Hi;
    change (set_inst_status WorkflowStatus.RUNNING
              (set_inst_status WorkflowStatus.CANCELLED inst))
      with (set_inst_status WorkflowStatus.RUNNING inst);
    destruct (while_loop self fuel _) as [[run [| |e]]|]; by rewrite ?insert_insert_eq.
Qed.

Lemma background_outcome fuel iid insts insts' r tr :
  execute_workflow_background self fuel iid insts = Some (insts', r, tr) →
  r = Ok ()
  ∧ match insts !! iid with
    | None => insts' = insts ∧ tr = []
    | Some _ =>
        ∃ inst', insts' !! iid = Some inst'
                 ∧ (inst_status inst' = WorkflowStatus.COMPLETED
                    ∨ inst_status inst' = WorkflowStatus.FAILED)
    end.
Proof.
  unfold execute_workflow_background. intros H.
  destruct (execute_workflow self fuel iid insts) as [[[m r0] tr0]|] eqn:He; [|done].
  destruct (insts !! iid) as [inst|] eqn:Hi.
  - destruct (execute_workflow_cases _ _ _ _ _ _ _ Hi He) as (run & fl & Hw & -> & Hfl).
    destruct (EngineProps.while_loop_post _ _ _ _ _ _ (EngineProps.Inv_init inst) Hw)
      as [HPost _].
    destruct fl as [| |e]; simpl in HPost.
    + destruct Hfl as [-> ->]. simplify_eq. split; [done|].
      eexists. split; [apply lookup_insert_eq|]. by left.
    + destruct Hfl as [-> ->]. simplify_eq. split; [done|].
      eexists. split; [apply lookup_insert_eq|]. right. by destruct HPost as (_ & _ & ?).
    + destruct Hfl as [-> ->]. rewrite lookup_insert_eq in H. simplify_eq.
      split; [done|]. eexists. split; [apply lookup_insert_eq|]. by right.
  - unfold execute_workflow in He. rewrite Hi in He. simplify_eq.
    rewrite Hi in H. by simplify_eq.
Qed.

(** X12. [execute_workflow_background] lets no exception that derives
    from [Exception] out and leaves a verdict: unless the run is interrupted
    from outside (task cancellation, which [except Exception] does not
    catch), it returns normally whenever it ends; for an unknown instance
    id the store is unchanged, and a known instance is left Completed or
    Failed. *)
Theorem background_run_leaves_a_verdict fuel iid insts insts' r tr :
  execute_workflow_background self fuel iid insts = Some (insts', r, tr) →
  r = Ok ()
  ∧ match insts !! iid with
    | None => insts' = insts ∧ tr = []
    | Some _ =>
        ∃ inst', insts' !! iid = Some inst'
                 ∧ (inst_status inst' = WorkflowStatus.COMPLETED
                    ∨ inst_status inst' = WorkflowStatus.FAILED)
    end.
Proof. apply background_outcome. Qed.

(** ** Step types *)

(** X13. A step whose type is none of the six supported ones fails as
    soon as it is dispatched, whatever the handlers: [_execute_step] raises
    with the message naming the type, the step is left Failed with that
    message as its error and its result as it was, and two status
    assignments are recorded, to Running and to Failed. *)
Theorem unsupported_step_type_fails i step run :
  step_type step ∉ supported_step_types →
  ∃ run1 step2,
    _execute_step self i step run
    = (run1, Raise (OtherError ("不支持的步骤类型: " +:+ step_type step)))
    ∧ steps (instance run1) = <[i := step2]> (steps (instance run))
    ∧ status step2 = StepStatus.FAILED
    ∧ error step2 = Some ("不支持的步骤类型: " +:+ step_type step)
    ∧ result step2 = result step
    ∧ trace run1
      = (trace run
         ++ [ {| tr_step := i; tr_from := status step; tr_to := StepStatus.RUNNING |};
              {| tr_step := i; tr_from := StepStatus.RUNNING;
                 tr_to := StepStatus.FAILED |} ])%list.
Proof.
  intros Hty. unfold _execute_step, dispatch. cbn [step_type set_step_status].
  assert (Hne : ∀ ty, ty ∈ supported_step_types → String.eqb (step_type step) ty = false).
  { intros ty Hin. apply String.eqb_neq. by intros <-. }
  unfold supported_step_types in Hne.
  rewrite !Hne by (apply (bool_decide_unpack _); vm_compute; exact I).
  do 2 eexists. split; [reflexivity|]. simpl.
  rewrite list_insert_insert_eq, <- app_assoc. done.
Qed.

End WithHandlers.

(** ** The properties at concrete inputs *)

Lemma ok_handlers_return : all_handlers_return ok_handlers.
Proof.
  intros step inst Hty. unfold dispatch, ok_handlers, ok_handler. simpl.
  repeat (apply elem_of_cons in Hty as [->|Hty]; [by eexists|]).
  by apply elem_of_nil in Hty.
Qed.

Lemma supported_handlers_return self inst :
  all_handlers_return self →
  Forall (λ s, step_type s ∈ supported_step_types) (steps inst) →
  handlers_return self inst.
Proof.
  intros Hall Hty step inst' Hin. apply Hall.
  apply list_elem_of_fmap in Hin as (s0 & -> & Hs0).
  rewrite Forall_forall in Hty. by apply Hty.
Qed.


Lemma execute_workflow_outcomes_witness :
  ∃ insts' r tr,
    execute_workflow ok_handlers 5 "i" (set_steps_of unsupported_steps)
      = Some (insts', r, tr)
    ∧ ∃ inst',
        insts' !! "i" = Some inst'
        ∧ ((r = Ok () ∧ inst_status inst' = WorkflowStatus.COMPLETED
            ∧ Forall (λ s, status s = StepStatus.COMPLETED) (steps inst')
            ∧ clean tr)
           ∨ (r = Ok () ∧ inst_status inst' = WorkflowStatus.FAILED
              ∧ tr = [] ∧ steps inst' = steps (mk_instance unsupported_steps))
           ∨ (∃ e i, r = Raise e ∧ inst_status inst' = WorkflowStatus.FAILED
                     ∧ last tr = Some {| tr_step := i; tr_from := StepStatus.RUNNING;
                                         tr_to := StepStatus.FAILED |})).
Proof.
  do 3 eexists. split; [vm_compute; reflexivity|].
  eapply (execute_workflow_outcomes ok_handlers 5 "i"
            (set_steps_of unsupported_steps) (mk_instance unsupported_steps)).
  - reflexivity.
  - vm_compute. reflexivity.
Defined.

Lemma duplicate_ids_never_complete_witness :
  ∃ insts' r tr,
    execute_workflow ok_handlers 5 "i" (set_steps_of duplicate_steps)
      = Some (insts', r, tr)
    ∧ ∃ inst', insts' !! "i" = Some inst'
               ∧ inst_status inst' = WorkflowStatus.FAILED.
Proof.
  do 3 eexists. split; [vm_compute; reflexivity|].
  eapply (duplicate_ids_never_complete ok_handlers 5 "i"
            (set_steps_of duplicate_steps) (mk_instance duplicate_steps)).
  - reflexivity.
  - simpl. rewrite NoDup_cons. intros [Hn _]. apply Hn, list_elem_of_here.
  - vm_compute. reflexivity.
Defined.

Lemma deadlock_when_nothing_can_start_witness :
  execute_workflow ok_handlers 1 "i" (set_steps_of two_cycle_steps)
  = Some (<["i" := set_inst_status WorkflowStatus.FAILED (mk_instance two_cycle_steps)]>
            (set_steps_of two_cycle_steps), Ok (), []).
Proof.
  apply (deadlock_when_nothing_can_start ok_handlers 0 "i"
           (set_steps_of two_cycle_steps) (mk_instance two_cycle_steps)).
  - reflexivity.
  - discriminate.
  - repeat constructor; discriminate.
Defined.

Lemma ordered_workflow_completes_in_one_scan_witness :
  ∃ inst',
    execute_workflow ok_handlers 2 "i" (set_steps_of chain_steps)
    = Some (<["i" := inst']> (set_steps_of chain_steps), Ok (),
            run_in_order (seq 0 (length (steps (mk_instance chain_steps)))))
    ∧ inst_status inst' = WorkflowStatus.COMPLETED
    ∧ length (steps inst') = length (steps (mk_instance chain_steps))
    ∧ Forall (λ s, status s = StepStatus.COMPLETED) (steps inst').
Proof.
  apply (ordered_workflow_completes_in_one_scan ok_handlers 0 "i"
           (set_steps_of chain_steps) (mk_instance chain_steps)).
  - reflexivity.
  - repeat constructor.
  - apply (bool_decide_unpack _). vm_compute. exact I.
  - apply ordered_from_nil. reflexivity.
  - apply supported_handlers_return; [apply ok_handlers_return|].
    apply (bool_decide_unpack _). vm_compute. exact I.
Defined.

Lemma acyclic_workflow_completes_witness :
  ∃ inst' tr,
    execute_workflow ok_handlers 3 "i" (set_steps_of reversed_steps)
    = Some (<["i" := inst']> (set_steps_of reversed_steps), Ok (), tr)
    ∧ inst_status inst' = WorkflowStatus.COMPLETED
    ∧ Forall (λ s, status s = StepStatus.COMPLETED) (steps inst').
Proof.
  apply (acyclic_workflow_completes ok_handlers rank_ab 2 3 "i"
           (set_steps_of reversed_steps) (mk_instance reversed_steps)).
  - reflexivity.
  - apply (bool_decide_unpack _). vm_compute. exact I.
  - intros s d Hs Hd. simpl in Hs.
    apply elem_of_cons in Hs as [->|Hs].
    + simpl in Hd. apply list_elem_of_singleton in Hd as ->.
      exists (mk_step "a" "data_fetch" []).
      split; [apply list_elem_of_further, list_elem_of_here|]. split; [done|].
      vm_compute. lia.
    + apply list_elem_of_singleton in Hs as ->. simpl in Hd.
      by apply elem_of_nil in Hd.
  - intros s Hs. simpl in Hs.
    apply elem_of_cons in Hs as [->|Hs]; [vm_compute; lia|].
    apply list_elem_of_singleton in Hs as ->. vm_compute. lia.
  - apply supported_handlers_return; [apply ok_handlers_return|].
    apply (bool_decide_unpack _). vm_compute. exact I.
  - lia.
Defined.

Lemma execute_workflow_keeps_identity_witness :
  ∃ insts' r tr,
    execute_workflow ok_handlers 5 "i" (set_steps_of unsupported_steps)
      = Some (insts', r, tr)
    ∧ (∀ j, j ≠ "i" → insts' !! j = set_steps_of unsupported_steps !! j)
    ∧ ∃ inst',
        insts' !! "i" = Some inst'
        ∧ inst_id inst' = inst_id (mk_instance unsupported_steps)
        ∧ workflow_name inst' = workflow_name (mk_instance unsupported_steps)
        ∧ inst_parameters inst' = inst_parameters (mk_instance unsupported_steps)
        ∧ Forall2 same_identity (steps inst') (steps (mk_instance unsupported_steps)).
Proof.
  do 3 eexists. split; [vm_compute; reflexivity|].
  eapply (execute_workflow_keeps_identity ok_handlers 5 "i"
            (set_steps_of unsupported_steps) (mk_instance unsupported_steps)).
  - reflexivity.
  - vm_compute. reflexivity.
Defined.

Lemma started_workflow_completes_witness :
  ∃ insts1 inst',
    start_workflow "nfdrs4_fire_risk_assessment" (JObj []) "i"
      (_initialize_workflows ∅) ∅ = (insts1, Ok "i")
    ∧ (∀ j, j ≠ "i" → insts1 !! j = (∅ : gmap string WorkflowInstance) !! j)
    ∧ execute_workflow ok_handlers 2 "i" insts1
      = Some (<["i" := inst']> insts1, Ok (),
              run_in_order (seq 0 (length (def_steps nfdrs4_workflow))))
    ∧ inst_status inst' = WorkflowStatus.COMPLETED
    ∧ length (steps inst') = length (def_steps nfdrs4_workflow)
    ∧ Forall (λ s, status s = StepStatus.COMPLETED) (steps inst').
Proof.
  apply (started_workflow_completes ok_handlers "nfdrs4_fire_risk_assessment"
           (JObj []) "i" (_initialize_workflows ∅) ∅ nfdrs4_workflow 0).
  - vm_compute. reflexivity.
  - apply (bool_decide_unpack _). vm_compute. exact I.
  - apply ordered_from_nil. reflexivity.
  - intros step inst' Hin. apply ok_handlers_return.
    revert Hin. apply (Forall_forall (λ ty, ty ∈ supported_step_types)).
    apply (bool_decide_unpack _). vm_compute. exact I.
Defined.

Lemma predefined_workflows_complete_witness :
  (NoDup (id <$> def_steps comprehensive_workflow)
   ∧ topologically_ordered (def_steps comprehensive_workflow)
   ∧ Forall (λ s, step_type s ∈ supported_step_types)
       (def_steps comprehensive_workflow))
  ∧ ∃ insts1 inst',
      start_workflow "comprehensive_disaster_assessment" (JObj []) "i"
        (_initialize_workflows ∅) ∅ = (insts1, Ok "i")
      ∧ execute_workflow ok_handlers 2 "i" insts1
        = Some (<["i" := inst']> insts1, Ok (),
                run_in_order (seq 0 (length (def_steps comprehensive_workflow))))
      ∧ inst_status inst' = WorkflowStatus.COMPLETED
      ∧ Forall (λ s, status s = StepStatus.COMPLETED) (steps inst').
Proof.
  apply (predefined_workflows_complete ok_handlers "comprehensive_disaster_assessment"
           (JObj []) "i" ∅ comprehensive_workflow 0).
  - vm_compute. reflexivity.
  - apply ok_handlers_return.
Defined.

Lemma background_run_leaves_a_verdict_witness :
  ∃ insts' r tr,
    execute_workflow_background ok_handlers 5 "i" (set_steps_of unsupported_steps)
      = Some (insts', r, tr)
    ∧ r = Ok ()
    ∧ ∃ inst', insts' !! "i" = Some inst'
               ∧ (inst_status inst' = WorkflowStatus.COMPLETED
                  ∨ inst_status inst' = WorkflowStatus.FAILED).
Proof.
  do 3 eexists. split; [vm_compute; reflexivity|].
  eapply (background_run_leaves_a_verdict ok_handlers 5 "i"
            (set_steps_of unsupported_steps)).
  vm_compute. reflexivity.
Defined.

Lemma unsupported_step_type_fails_witness :
  ∃ run1 step2,
    _execute_step ok_handlers 1 (mk_step "b" "email" ["a"]) cyclic_after_first_scan
    = (run1, Raise (OtherError ("不支持的步骤类型: " +:+ "email")))
    ∧ steps (instance run1) = <[1%nat := step2]> (steps (instance cyclic_after_first_scan))
    ∧ status step2 = StepStatus.FAILED
    ∧ error step2 = Some ("不支持的步骤类型: " +:+ "email")
    ∧ result step2 = JNull
    ∧ trace run1
      = (trace cyclic_after_first_scan
         ++ [ {| tr_step := 1; tr_from := StepStatus.PENDING;
                 tr_to := StepStatus.RUNNING |};
              {| tr_step := 1; tr_from := StepStatus.RUNNING;
                 tr_to := StepStatus.FAILED |} ])%list.
Proof.
  apply (unsupported_step_type_fails ok_handlers 1 (mk_step "b" "email" ["a"])
           cyclic_after_first_scan).
  apply (bool_decide_unpack _). vm_compute. exact I.
Defined.

End EngineMore.

(** * Further properties of the service client *)
Module ClientMore.
Import Client.

Section Framework.

Variable str_json : json → string.

Implicit Types (services : gmap string ServiceEndpoint) (env : Env)
  (envs : nat → Env) (sn tn : string) (params : json) (t : option Z).

(** ** Requests issued by a call *)

Lemma poll_loop_log svc x timeout start script r log :
  poll_loop str_json svc x timeout start script = Some (r, log) →
  Forall (λ q, q = GET (url svc +:+ "/status/" +:+ str_json x) None) log
  ∧ (length log ≤ length script)%nat.
Proof.
  revert r log. induction script as [|tk rest IH]; intros r log H; [done|].
  cbn [poll_loop] in H.
  destruct (timeout <? tick_now tk - start).
  { simplify_eq. split; [constructor|simpl; lia]. }
  match type of H with
  | match ?a with _ => _ end = _ => destruct a as [[r0|]|e]
  end.
  - simplify_eq. split; [by repeat constructor|simpl; lia].
  - destruct (poll_loop str_json svc x timeout start rest) as [[r1 log1]|]; [|done].
    simplify_eq. destruct (IH _ _ eq_refl) as [HF Hlen].
    split; [by constructor|simpl; lia].
  - simplify_eq. split; [by repeat constructor|simpl; lia].
Qed.

Lemma try_block_requests svc tn params tv env r log :
  try_block str_json svc tn params tv env = Some (r, log) →
  ∃ rest x,
    log = POST (url svc +:+ "/execute") (request_data tn params) tv :: rest
    ∧ Forall (λ q, q = GET (url svc +:+ "/status/" +:+ str_json x) None) rest
    ∧ (length rest ≤ length (ticks env))%nat.
Proof.
  unfold try_block, _wait_for_completion. intros H.
  repeat match type of H with
  | context [match poll_loop ?a ?b ?c ?d ?e ?f with _ => _ end] =>
      destruct (poll_loop a b c d e f) as [[? ?]|] eqn:Hp
  | context [match ?x with _ => _ end] => destruct x eqn:?
  | context [if ?b then _ else _] => destruct b eqn:?
  end; simplify_eq;
    try (exists [], JNull; split; [reflexivity|]; split; [constructor|simpl; lia]).
  destruct (poll_loop_log _ _ _ _ _ _ _ Hp) as [HF Hlen]. eauto.
Qed.

(** X14. A call that passes the registry gate issues exactly one POST, to
    [{url}/execute], carrying the tool name, the parameters and priority 0,
    with the caller's timeout, or the service's when none or 0 is given; the
    POST is never repeated, and all that follows are GETs of one status
    address, at most one per polling iteration. *)
Theorem call_service_sends_one_post sn tn params t services envs svc s' r log :
  services !! sn = Some svc →
  status svc ≠ UNHEALTHY →
  call_service str_json sn tn params t services envs = Some (s', r, log) →
  ∃ rest x,
    log = POST (url svc +:+ "/execute")
               (JObj [("tool_name", JStr tn); ("parameters", params);
                      ("priority", JNum 0)])
               (match t with
                | Some v => if v =? 0 then timeout svc else v
                | None => timeout svc
                end) :: rest
    ∧ Forall (λ q, q = GET (url svc +:+ "/status/" +:+ str_json x) None) rest
    ∧ (length rest ≤ length (ticks (envs 0%nat)))%nat.
Proof.
  intros Hsvc Hst. rewrite ClientProps.call_service_unfold.
  unfold call_service_body. rewrite Hsvc.
  destruct (ServiceStatus_eqb (status svc) UNHEALTHY) eqn:E.
  { destruct (status svc); done. }
  destruct (try_block _ _ _ _ _ _) as [[r0 log0]|] eqn:Et; [|done].
  destruct (try_block_requests _ _ _ _ _ _ _ Et) as (rest & x & -> & HF & Hlen).
  intros H. exists rest, x.
  destruct r0 as [res|[m|m]]; simplify_eq; done.
Qed.

(** X15. A call changes nothing but the health bookkeeping of the service
    called: the other services are untouched, and of the service called
    only the status, the error count and the response time can change; its
    name, addresses, threshold, timeout and last-check time are kept.  For
    an unknown name the registry is unchanged. *)
Theorem call_service_frame sn tn params t services envs s' r log :
  call_service str_json sn tn params t services envs = Some (s', r, log) →
  (∀ other, other ≠ sn → s' !! other = services !! other)
  ∧ match services !! sn with
    | None => s' = services
    | Some svc =>
        ∃ svc', s' !! sn = Some svc'
                ∧ name svc' = name svc ∧ url svc' = url svc
                ∧ health_check_url svc' = health_check_url svc
                ∧ max_errors svc' = max_errors svc
                ∧ timeout svc' = timeout svc
                ∧ last_check svc' = last_check svc
    end.
Proof.
  rewrite ClientProps.call_service_unfold. unfold call_service_body.
  destruct (services !! sn) as [svc|] eqn:Hsvc; [|by intros [= <- <- <-]].
  destruct (ServiceStatus_eqb (status svc) UNHEALTHY).
  { intros [= <- <- <-]. split; [done|]. exists svc. by rewrite Hsvc. }
  destruct (try_block _ _ _ _ _ _) as [[r0 log0]|]; [|done].
  destruct r0 as [res|[m|m]]; intros [= <- <- <-];
    (split; [intros other Hne; by rewrite lookup_insert_ne|]);
    eexists; (split; [apply lookup_insert_eq|]); try done.
  simpl. by destruct (max_errors svc <=? error_count svc + 1).
Qed.

(** ** The polling loop *)

(** X16. Polling until completion: after any number of polls, each made
    before the deadline and answered "keep waiting", a poll made before the
    deadline and answered 200 with status "completed" ends the wait with a
    successful result whose data is the [result] entry of that answer
    ([None] when there is none) and whose execution id is the one polled;
    one GET was issued per poll and the rest of the script is not used. *)
Theorem polling_returns_the_result svc x timeout env waiting tk rest response kvs :
  ticks env = (waiting ++ tk :: rest)%list →
  Forall (waits timeout (w_start env)) waiting →
  tick_now tk - w_start env ≤ timeout →
  tick_reply tk = Ok response →
  http_status response = 200 →
  json_body response = Ok (JObj kvs) →
  assoc "status" kvs = Some (JStr "completed") →
  _wait_for_completion str_json svc x timeout env
  = Some ({| success := true; data := default JNull (assoc "result" kvs);
             error := JNull; execution_id := x; service_name := None;
             tool_name := None; duration := 0 |},
          replicate (S (length waiting))
            (GET (url svc +:+ "/status/" +:+ str_json x) None)).
Proof.
  intros Hticks Hwait Hnow Hreply H200 Hjson Hst.
  unfold _wait_for_completion. rewrite Hticks, (ClientProps.poll_loop_waits _ _ _ _ _ _ _ Hwait).
  cbn [poll_loop].
  destruct (timeout <? tick_now tk - w_start env) eqn:E; [lia|].
  rewrite Hreply. simpl. rewrite H200, Hjson. simpl. rewrite Hst. simpl.
  rewrite <- replicate_cons_app. done.
Qed.

(** X17. Polling gives up at the deadline: after any number of polls made
    before the deadline and answered "keep waiting", the first iteration
    whose clock reading is more than [timeout] past the start ends the wait
    with a failed result "Execution <id> timed out" that keeps the
    execution id; that iteration issues no request. *)
Theorem polling_gives_up_at_the_deadline svc x timeout env waiting tk rest :
  ticks env = (waiting ++ tk :: rest)%list →
  Forall (waits timeout (w_start env)) waiting →
  timeout < tick_now tk - w_start env →
  _wait_for_completion str_json svc x timeout env
  = Some ({| success := false; data := JNull;
             error := JStr ("Execution " +:+ str_json x +:+ " timed out");
             execution_id := x; service_name := None; tool_name := None;
             duration := 0 |},
          replicate (length waiting)
            (GET (url svc +:+ "/status/" +:+ str_json x) None)).
Proof.
  intros Hticks Hwait Hnow.
  unfold _wait_for_completion. rewrite Hticks, (ClientProps.poll_loop_waits _ _ _ _ _ _ _ Hwait).
  cbn [poll_loop].
  destruct (timeout <? tick_now tk - w_start env) eqn:E; [|lia].
  by rewrite app_nil_r.
Qed.

(** X18. An answer "running" without a usable execution id (missing, null
    or empty) is a failed call "No execution ID returned": nothing is
    polled, and the service is still set Healthy with its error count reset. *)
Theorem running_without_execution_id sn tn params t services envs svc response kvs :
  services !! sn = Some svc →
  status svc ≠ UNHEALTHY →
  post (envs 0%nat) = Ok response →
  http_status response = 200 →
  json_body response = Ok (JObj kvs) →
  assoc "status" kvs = Some (JStr "running") →
  truthy (default JNull (assoc "execution_id" kvs)) = false →
  ∃ res after,
    call_service str_json sn tn params t services envs
    = Some (<[sn := after]> services, Ok res,
            [POST (url svc +:+ "/execute") (request_data tn params) (timeout_or t svc)])
    ∧ success res = false ∧ error res = JStr "No execution ID returned"
    ∧ status after = HEALTHY ∧ error_count after = 0.
Proof.
  intros Hsvc Hst Hpost H200 Hjson Hrun Hid.
  rewrite ClientProps.call_service_unfold. unfold call_service_body, try_block.
  rewrite Hsvc, Hpost, H200, Hjson.
  destruct (ServiceStatus_eqb (status svc) UNHEALTHY) eqn:E.
  { destruct (status svc); done. }
  simpl. rewrite Hrun. simpl. rewrite Hid. eauto 10.
Qed.

End Framework.

(** ** Probes *)

(** X19. A probe concerns one service only: the other entries of the
    registry are untouched and no entry is added or removed; for a name
    that is not registered the probe answers False without any request. *)
Theorem health_check_frame sn (services : gmap string ServiceEndpoint) probe now :
  (∀ other, other ≠ sn →
     (health_check sn services probe now).1.1 !! other = services !! other)
  ∧ dom (health_check sn services probe now).1.1 = dom services
  ∧ (services !! sn = None →
     health_check sn services probe now = (services, Ok false, [])).
Proof.
  unfold health_check. destruct (services !! sn) as [svc|] eqn:Hsvc.
  - assert (Hdom : ∀ v, dom (<[sn := v]> services) = dom services).
    { intros v. rewrite dom_insert_L. apply subseteq_union_1_L.
      apply singleton_subseteq_l. by eapply elem_of_dom_2. }
    destruct probe; simpl; (split; [intros other Hne; by rewrite lookup_insert_ne|]);
      (split; [apply Hdom|done]).
  - done.
Qed.

Lemma health_check_probed sn (services : gmap string ServiceEndpoint) probe now :
  (health_check sn services probe now).1.1 !! sn
  = probed probe now <$> services !! sn.
Proof.
  unfold health_check. destruct (services !! sn) as [svc|] eqn:Hsvc; simpl.
  - destruct probe; simpl; by rewrite lookup_insert_eq.
  - by rewrite Hsvc.
Qed.

Lemma health_fold probes clock keys (services : gmap string ServiceEndpoint) sn :
  NoDup keys →
  foldl (λ svcs k, (health_check k svcs (probes k) (clock k)).1.1) services keys !! sn
  = if decide (sn ∈ keys)
    then probed (probes sn) (clock sn) <$> services !! sn
    else services !! sn.
Proof.
  intros Hnd. revert services.
  induction Hnd as [|k keys Hk Hnd IH]; intros services; simpl.
  - destruct (decide (sn ∈ [])) as [Hin|_]; [by apply elem_of_nil in Hin|done].
  - rewrite IH.
    destruct (health_check_frame k services (probes k) (clock k)) as [Hfr _].
    destruct (decide (sn ∈ keys)) as [Hin|Hnin];
      destruct (decide (sn ∈ k :: keys)) as [Hin'|Hnin'].
    + rewrite Hfr; [done|]. by intros ->.
    + destruct Hnin'. by apply list_elem_of_further.
    + apply elem_of_cons in Hin' as [->|?]; [|done]. apply health_check_probed.
    + rewrite Hfr; [done|]. intros ->. apply Hnin', list_elem_of_here.
Qed.

(** X20. One round of the background checker probes every registered
    service once: afterwards each service is Healthy when its probe was
    answered 200 and Unhealthy otherwise, so that none is left Unknown or
    Degraded; error counts and all other fields but the last-check time are
    as before, and no service is added or removed. *)
Theorem health_round_probes_every_service probes clock
    (services : gmap string ServiceEndpoint) sn :
  health_round probes clock services !! sn
  = probed (probes sn) (clock sn) <$> services !! sn.
Proof.
  unfold health_round. rewrite health_fold by apply NoDup_fst_map_to_list.
  destruct (decide (sn ∈ (map_to_list services).*1)) as [Hin|Hnin]; [done|].
  destruct (services !! sn) as [svc|] eqn:Hsvc; [|done].
  destruct Hnin. apply list_elem_of_fmap. exists (sn, svc).
  split; [done|]. by apply elem_of_map_to_list.
Qed.

(** X21. Recovery is fragile because a probe does not reset the error
    count: an Unhealthy service whose count is at most one below the
    threshold is reopened by a successful probe, but the first call that
    then fails with an exception other than a timeout, after one POST, sets
    it Unhealthy again. *)
Theorem recovered_service_is_one_failure_from_unhealthy str_json sn tn params t
    (services : gmap string ServiceEndpoint) envs svc response now m :
  services !! sn = Some svc →
  status svc = UNHEALTHY →
  max_errors svc ≤ error_count svc + 1 →
  http_status response = 200 →
  post (envs 0%nat) = Raise (OtherError m) →
  ∃ s1 s2 res req mid after,
    health_check sn services (Ok response) now = (s1, Ok true, [req])
    ∧ s1 !! sn = Some mid ∧ status mid = HEALTHY
    ∧ error_count mid = error_count svc
    ∧ call_service str_json sn tn params t s1 envs
      = Some (s2, Ok res,
              [POST (url svc +:+ "/execute") (request_data tn params) (timeout_or t svc)])
    ∧ success res = false
    ∧ s2 !! sn = Some after ∧ status after = UNHEALTHY
    ∧ error_count after = error_count svc + 1.
Proof.
  intros Hsvc Hst Hmax H200 Hpost.
  unfold health_check. rewrite Hsvc, H200. simpl.
  do 6 eexists. split; [reflexivity|].
  split; [apply lookup_insert_eq|]. split; [done|]. split; [done|].
  rewrite ClientProps.call_service_unfold. unfold call_service_body, try_block.
  rewrite lookup_insert_eq, Hpost. simpl.
  destruct (max_errors svc <=? error_count svc + 1) eqn:E; [|lia].
  split; [reflexivity|]. split; [done|].
  split; [apply lookup_insert_eq|]. done.
Qed.

(** ** Status reports *)

(** X22. [get_service_status] answers [{"error": "Service not found"}]
    for an unknown name and never for a registered one; [list_services]
    has one report per registered service, none of them an error report,
    and the report of every registered service is in it. *)
Theorem list_services_reports_every_service (services : gmap string ServiceEndpoint) :
  length (list_services services) = size services
  ∧ Forall (λ j, dict_get "error" j = Ok JNull) (list_services services)
  ∧ (∀ sn, services !! sn = None →
       get_service_status sn services = JObj [("error", JStr "Service not found")])
  ∧ (∀ sn svc, services !! sn = Some svc →
       get_service_status sn services ∈ list_services services
       ∧ dict_get "status" (get_service_status sn services)
         = Ok (JStr (status_value (status svc)))).
Proof.
  unfold list_services. split; [|split; [|split]].
  - by rewrite length_fmap, length_map_to_list.
  - apply Forall_fmap, Forall_forall. intros [sn svc] Hin.
    apply elem_of_map_to_list in Hin. simpl. unfold get_service_status.
    by rewrite Hin.
  - intros sn Hsn. unfold get_service_status. by rewrite Hsn.
  - intros sn svc Hsn. split.
    + apply list_elem_of_fmap. exists (sn, svc). split; [done|].
      by apply elem_of_map_to_list.
    + unfold get_service_status. by rewrite Hsn.
Qed.

(** ** The default registry *)

Lemma default_services_cases sn d :
  default_services !! sn = Some d →
  d = new_endpoint sn (url d) (url d +:+ "/health")
  ∧ sn ∈ ["postgis"; "filesystem"; "climada"; "lisflood"].
Proof.
  unfold default_services. simpl. intros H.
  repeat (apply lookup_insert_Some in H as [[<- <-]|[_ H]];
          [split; [reflexivity|]; apply (bool_decide_unpack _); vm_compute; exact I|]).
  by rewrite lookup_empty in H.
Qed.

(** X23. After [_create_default_services] each of the four default
    services is registered afresh, whatever the registry held under its
    name before (an Unhealthy entry included): status Unknown, error count
    0, threshold 3, timeout 30 and the health address [{url}/health]; so a
    call to it is not refused but sent, as one POST to [{url}/execute] with
    timeout 30 when the caller gives none.  Entries under other names are
    kept. *)
Theorem default_services_are_called str_json sn tn params
    (services : gmap string ServiceEndpoint) envs d s' r log :
  default_services !! sn = Some d →
  call_service str_json sn tn params None (_create_default_services services) envs
    = Some (s', r, log) →
  _create_default_services services !! sn
    = Some (new_endpoint sn (url d) (url d +:+ "/health"))
  ∧ (∀ other, default_services !! other = None →
       _create_default_services services !! other = services !! other)
  ∧ ∃ rest, log = POST (url d +:+ "/execute") (request_data tn params) 30 :: rest.
Proof.
  intros Hd H. destruct (default_services_cases _ _ Hd) as [Heq _].
  assert (Hst : status d = UNKNOWN) by (by rewrite Heq).
  assert (Hto : timeout d = 30) by (by rewrite Heq).
  assert (Hl : _create_default_services services !! sn = Some d).
  { unfold _create_default_services. by apply lookup_union_Some_l. }
  split; [by rewrite Hl, <- Heq|]. split.
  - intros other Ho. unfold _create_default_services. by apply lookup_union_r.
  - rewrite ClientProps.call_service_unfold in H. unfold call_service_body in H.
    rewrite Hl, Hst in H. cbn [ServiceStatus_eqb timeout_or] in H. rewrite Hto in H.
    destruct (try_block _ _ _ _ _ _) as [[r0 log0]|] eqn:Et; [|done].
    destruct (ClientProps.try_block_log _ _ _ _ _ _ _ _ Et) as (rest & Hlog & _).
    exists rest. destruct r0 as [res|[m|m]]; simplify_eq; done.
Qed.

(** ** The properties at concrete inputs *)

Lemma default_services_are_called_witness :
  ∃ s' r log,
    call_service str_sample "climada" "t" (JObj []) None
      (_create_default_services {[ "climada" := svc_tripped ]}) env_timeout
      = Some (s', r, log)
    ∧ _create_default_services {[ "climada" := svc_tripped ]} !! "climada"
      = Some (new_endpoint "climada" "http://localhost:8001"
                ("http://localhost:8001" +:+ "/health"))
    ∧ (∀ other, default_services !! other = None →
         _create_default_services {[ "climada" := svc_tripped ]} !! other
         = ({[ "climada" := svc_tripped ]} : gmap string ServiceEndpoint) !! other)
    ∧ ∃ rest, log = POST ("http://localhost:8001" +:+ "/execute")
                         (request_data "t" (JObj [])) 30 :: rest.
Proof.
  do 3 eexists. split; [vm_compute; reflexivity|].
  eapply (default_services_are_called str_sample "climada" "t" (JObj [])
            {[ "climada" := svc_tripped ]} env_timeout
            (new_endpoint "climada" "http://localhost:8001"
               "http://localhost:8001/health")).
  - vm_compute. reflexivity.
  - vm_compute. reflexivity.
Defined.

Lemma call_service_sends_one_post_witness :
  ∃ s' r log,
    call_service str_sample "a" "t" (JObj []) (Some 0) services_a env_polled
      = Some (s', r, log)
    ∧ ∃ rest x,
        log = POST (url svc_a +:+ "/execute")
                   (JObj [("tool_name", JStr "t"); ("parameters", JObj []);
                          ("priority", JNum 0)])
                   (timeout svc_a) :: rest
        ∧ Forall (λ q, q = GET (url svc_a +:+ "/status/" +:+ str_sample x) None) rest
        ∧ (length rest ≤ length (ticks (env_polled 0%nat)))%nat.
Proof.
  do 3 eexists. split; [vm_compute; reflexivity|].
  eapply (call_service_sends_one_post str_sample "a" "t" (JObj []) (Some 0)
            services_a env_polled svc_a).
  - reflexivity.
  - discriminate.
  - vm_compute. reflexivity.
Defined.

Lemma call_service_frame_witness :
  ∃ s' r log,
    call_service str_sample "a" "t" (JObj []) None services_a env_timeout
      = Some (s', r, log)
    ∧ (∀ other, other ≠ "a" → s' !! other = services_a !! other)
    ∧ ∃ svc', s' !! "a" = Some svc'
              ∧ name svc' = name svc_a ∧ url svc' = url svc_a
              ∧ health_check_url svc' = health_check_url svc_a
              ∧ max_errors svc' = max_errors svc_a
              ∧ timeout svc' = timeout svc_a
              ∧ last_check svc' = last_check svc_a.
Proof.
  do 3 eexists. split; [vm_compute; reflexivity|].
  eapply (call_service_frame str_sample "a" "t" (JObj []) None services_a env_timeout).
  vm_compute. reflexivity.
Defined.

Lemma polling_returns_the_result_witness :
  _wait_for_completion str_sample svc_a (JStr "x") 30 (env_polled 0%nat)
  = Some ({| success := true; data := payload; error := JNull;
             execution_id := JStr "x"; service_name := None;
             tool_name := None; duration := 0 |},
          replicate 2 (GET (url svc_a +:+ "/status/" +:+ "x") None)).
Proof.
  apply (polling_returns_the_result str_sample svc_a (JStr "x") 30 (env_polled 0%nat)
           [ {| tick_now := 102; tick_reply := Ok (reply 200 (running_as "x") "") |} ]
           {| tick_now := 104;
              tick_reply := Ok (reply 200 (status_completed payload) "") |}
           [] (reply 200 (status_completed payload) "")
           [("status", JStr "completed"); ("result", payload)]).
  - reflexivity.
  - repeat constructor. vm_compute. discriminate.
  - vm_compute. discriminate.
  - reflexivity.
  - reflexivity.
  - reflexivity.
  - reflexivity.
Defined.

Lemma polling_gives_up_at_the_deadline_witness :
  _wait_for_completion str_sample svc_a (JStr "x") 30 env_slow
  = Some ({| success := false; data := JNull;
             error := JStr ("Execution " +:+ "x" +:+ " timed out");
             execution_id := JStr "x"; service_name := None; tool_name := None;
             duration := 0 |},
          replicate 1 (GET (url svc_a +:+ "/status/" +:+ "x") None)).
Proof.
  apply (polling_gives_up_at_the_deadline str_sample svc_a (JStr "x") 30 env_slow
           [ {| tick_now := 102; tick_reply := Ok (reply 200 (running_as "x") "") |} ]
           {| tick_now := 200;
              tick_reply := Ok (reply 200 (status_completed payload) "") |}
           []).
  - reflexivity.
  - repeat constructor. vm_compute. discriminate.
  - vm_compute. reflexivity.
Defined.

Lemma running_without_execution_id_witness :
  ∃ res after,
    call_service str_sample "a" "t" (JObj []) None services_a env_running_without_id
    = Some (<["a" := after]> services_a, Ok res,
            [POST (url svc_a +:+ "/execute") (request_data "t" (JObj []))
               (timeout_or None svc_a)])
    ∧ success res = false ∧ error res = JStr "No execution ID returned"
    ∧ status after = HEALTHY ∧ error_count after = 0.
Proof.
  apply (running_without_execution_id str_sample "a" "t" (JObj []) None services_a
           env_running_without_id svc_a
           (reply 200 (JObj [("status", JStr "running")]) "")
           [("status", JStr "running")]).
  - reflexivity.
  - discriminate.
  - reflexivity.
  - reflexivity.
  - reflexivity.
  - reflexivity.
  - reflexivity.
Defined.

Lemma recovered_service_is_one_failure_from_unhealthy_witness :
  ∃ s1 s2 res req mid after,
    health_check "a" {[ "a" := svc_tripped ]} (Ok (reply 200 (JObj []) "{}")) 7
      = (s1, Ok true, [req])
    ∧ s1 !! "a" = Some mid ∧ status mid = HEALTHY
    ∧ error_count mid = error_count svc_tripped
    ∧ call_service str_sample "a" "t" (JObj []) None s1 env_refused
      = Some (s2, Ok res,
              [POST (url svc_tripped +:+ "/execute") (request_data "t" (JObj []))
                 (timeout_or None svc_tripped)])
    ∧ success res = false
    ∧ s2 !! "a" = Some after ∧ status after = UNHEALTHY
    ∧ error_count after = error_count svc_tripped + 1.
Proof.
  apply (recovered_service_is_one_failure_from_unhealthy str_sample "a" "t" (JObj [])
           None {[ "a" := svc_tripped ]} env_refused svc_tripped
           (reply 200 (JObj []) "{}") 7 "Cannot connect to host").
  - reflexivity.
  - reflexivity.
  - vm_compute. discriminate.
  - reflexivity.
  - reflexivity.
Defined.

End ClientMore.

(** * Properties of the workflow endpoints *)
Module ApiProps.
Import Engine.

Section Endpoints.

Variable str_http : Api.HTTPException → string.

(** X24. The cancel endpoint never answers 400: it answers with a success
    body exactly when the engine cancelled the instance, and with status
    500 in every other case, also when the engine refuses (unknown,
    Completed or Failed instance), because the 400 raised for a refusal is
    caught by the handler's own [except Exception]. *)
Theorem cancel_endpoint_never_answers_400 workflow_engine instance_id :
  match (Api.cancel_workflow str_http workflow_engine instance_id).2 with
  | Api.Respond body =>
      body = JObj [("success", JBool true); ("message", JStr "工作流取消成功")]
      ∧ ∃ engine inst,
          workflow_engine = Some engine
          ∧ Api.workflow_instances engine !! instance_id = Some inst
          ∧ inst_status inst ≠ WorkflowStatus.COMPLETED
          ∧ inst_status inst ≠ WorkflowStatus.FAILED
  | Api.HttpError e =>
      Api.status_code e = 500
      ∧ (Api.cancel_workflow str_http workflow_engine instance_id).1 = workflow_engine
  end.
Proof.
  unfold Api.cancel_workflow. destruct workflow_engine as [engine|]; [|done].
  unfold cancel_workflow.
  destruct (Api.workflow_instances engine !! instance_id) as [inst|] eqn:Hi; simpl.
  - destruct (inst_status inst) eqn:Hst; simpl;
      try (split; [done|]; by destruct engine);
      (split; [done|]); exists engine, inst; by rewrite Hst.
  - split; [done|]. by destruct engine.
Qed.


End Endpoints.

End ApiProps.
